(** * IntervalAction: elapsed-time gated invocation

    A shallow embedding of [IntervalAction.hpp].  The three class templates
    [IntervalAction], [IntervalActionMEMFN] and [IntervalActionTPL] are
    modelled one by one, each in a module of its name, followed by the class
    [IntervalActionUstdClock] and the macros [IA_PRINT_ITER_PER_SEC] and
    [IA_PRINT_LOAD] built on it.

    - [uint32_t] values are integers [Z]; the subtraction of the gate wraps
  modulo [2 ^ bits].  The source fixes [bits = 32]; the width is kept as
  a parameter so that the same code can be run at a narrower width too.
    - The time source is effectful (it reads a hardware counter): it is a
  function [Env -> Z * Env] on the state of everything outside the gate.
    - A call of the gate with a unit of work is a state transformer on a
  [World]: the outside state, the gate's fields and the list of steps
  taken so far.  The unit of work is itself a state transformer on the
  world, so it may reconfigure or poll the gate it runs under. *)

From Stdlib Require Import String.
From Stdlib Require Import ZArith List Bool Lia.
Import ListNotations.
Open Scope Z_scope.

(** ** Unsigned arithmetic at a fixed width *)

Definition modulus (bits : N) : Z := 2 ^ Z.of_N bits.

Definition in_range (bits : N) (x : Z) : Prop := 0 <= x < modulus bits.

(** [a - b] on two unsigned operands of [bits] bits. *)
Definition usub (bits : N) (a b : Z) : Z := (a - b) mod modulus bits.

Definition uint32_bits : N := 32.

(** ** Worlds *)

(** The steps of a gate that can be observed from outside. *)
Inductive event : Type :=
| Sample (t : Z)   (* the time source was called and returned [t] *)
| Store (t : Z)    (* [t_prev] was assigned [t] *)
| Call.            (* the unit of work was called *)

Record World (Env G : Type) : Type := mkWorld {
  env : Env;
  gate : G;
  trace : list event
}.

Arguments mkWorld {Env G} _ _ _.
Arguments env {Env G} _.
Arguments gate {Env G} _.
Arguments trace {Env G} _.

(** A method of the gate called on the gate of the world. *)
Definition on_gate {Env G : Type} (m : G -> G) (w : World Env G) : World Env G :=
  mkWorld (env w) (m (gate w)) (trace w).

(** A unit of work that touches neither the gate nor the time source. *)
Definition noop {Env G : Type} (w : World Env G) : World Env G := w.

Definition is_call (e : event) : bool :=
  match e with Call => true | _ => false end.

Definition is_sample (e : event) : bool :=
  match e with Sample _ => true | _ => false end.

Definition calls (tr : list event) : nat := length (filter is_call tr).

Definition samples (tr : list event) : nat := length (filter is_sample tr).

(** ** Stub time sources *)

(** A time source whose [n]-th call returns [reading n]; the outside state is
    the number of calls made so far. *)
Definition sampled (reading : nat -> Z) (n : nat) : Z * nat := (reading n, S n).

(** A time source that replays a list of readings. *)
Definition replay (rs : list Z) : nat -> Z * nat := sampled (fun n => nth n rs 0).

(** A time source that stands still at [t]. *)
Definition steady (t : Z) : nat -> Z * nat := sampled (fun _ => t).

(** A free-running counter that advances by one at every call. *)
Definition ticking (start : Z) : nat -> Z * nat :=
  sampled (fun n => start + Z.of_nat n).

(** ** [class IntervalAction], whose template parameter [timer_function] is a
    pointer to a function [uint32_t (void)] *)

Module IntervalAction.

Record t : Type := mk { interval : Z; t_prev : Z }.

Definition set_interval (iv : Z) (g : t) : t := mk iv (t_prev g).
Definition get_interval (g : t) : Z := interval g.
Definition get_prev (g : t) : Z := t_prev g.

Section Methods.
Variable bits : N.
Variable Env : Type.
Variable timer_function : Env -> Z * Env.

(** [IntervalAction(const uint32_t iv) : interval(iv), t_prev(timer_function())] *)
Definition construct (iv : Z) (e : Env) : World Env t :=
  let (now, e1) := timer_function e in
  mkWorld e1 (mk iv now) [Sample now].

(** [operator()(const T&& func)] *)
Definition operator_call (func : World Env t -> World Env t)
    (w : World Env t) : World Env t :=
  let (now, e1) := timer_function (env w) in
  if interval (gate w) <=? usub bits now (t_prev (gate w)) then
    let (now2, e2) := timer_function e1 in
    func (mkWorld e2 (mk (interval (gate w)) now2)
            (trace w ++ [Sample now; Sample now2; Store now2; Call]))
  else
    mkWorld e1 (gate w) (trace w ++ [Sample now]).

(** The loop of the caller: [n] calls of the gate with the same unit of
    work.  [polls k func w] is the world before call number [k]. *)
Fixpoint polls (n : nat) (func : World Env t -> World Env t)
    (w : World Env t) : World Env t :=
  match n with
  | O => w
  | S k => operator_call func (polls k func w)
  end.

(** The pieces of [operator_call], named. *)

(** The reading the next call of the time source returns. *)
Definition next_reading (e : Env) : Z := fst (timer_function e).

(** The left operand of the comparison: [timer_function() - t_prev]. *)
Definition elapsed (w : World Env t) : Z :=
  usub bits (next_reading (env w)) (t_prev (gate w)).

(** The condition of the [if]. *)
Definition fires (w : World Env t) : bool :=
  interval (gate w) <=? elapsed w.

(** The reading assigned to [t_prev] when the condition holds. *)
Definition second_reading (e : Env) : Z :=
  next_reading (snd (timer_function e)).

(** The world in which the unit of work starts. *)
Definition fired (w : World Env t) : World Env t :=
  mkWorld (snd (timer_function (snd (timer_function (env w)))))
          (mk (interval (gate w)) (second_reading (env w)))
          (trace w ++ [Sample (next_reading (env w));
                       Sample (second_reading (env w));
                       Store (second_reading (env w)); Call]).

(** The world a call leaves when the condition fails. *)
Definition idle (w : World Env t) : World Env t :=
  mkWorld (snd (timer_function (env w))) (gate w)
          (trace w ++ [Sample (next_reading (env w))]).

(** A unit of work that leaves the gate's fields as they are. *)
Definition keeps_gate (func : World Env t -> World Env t) : Prop :=
  forall w, gate (func w) = gate w.

(** A unit of work that does not call the time source. *)
Definition keeps_env (func : World Env t -> World Env t) : Prop :=
  forall w, env (func w) = env w.

(** A unit of work that calls nothing that is traced. *)
Definition keeps_trace (func : World Env t -> World Env t) : Prop :=
  forall w, trace (func w) = trace w.
End Methods.

Arguments construct {Env} timer_function iv e.
Arguments operator_call bits {Env} timer_function func w.
Arguments polls bits {Env} timer_function n func w.
Arguments next_reading {Env} timer_function e.
Arguments elapsed bits {Env} timer_function w.
Arguments fires bits {Env} timer_function w.
Arguments second_reading {Env} timer_function e.
Arguments fired {Env} timer_function w.
Arguments idle {Env} timer_function w.
Arguments keeps_gate {Env} func.
Arguments keeps_env {Env} func.
Arguments keeps_trace {Env} func.

End IntervalAction.

(** ** [class IntervalActionMEMFN], whose template parameters are a class [T]
    and a pointer [timer_function] to a const method of [T] returning [uint32_t]

    [T] is the type of the clock object the gate refers to; the method gets
    the object and reads the outside state. *)

Module IntervalActionMEMFN.

Record t (T : Type) : Type := mk { interval : Z; t_prev : Z; clock_ : T }.
Arguments mk {T} _ _ _.
Arguments interval {T} _.
Arguments t_prev {T} _.
Arguments clock_ {T} _.

Definition set_interval {T : Type} (iv : Z) (g : t T) : t T :=
    mk iv (t_prev g) (clock_ g).
Definition get_interval {T : Type} (g : t T) : Z := interval g.
Definition get_prev {T : Type} (g : t T) : Z := t_prev g.

Section Methods.
Variable bits : N.
Variable Env : Type.
Variable T : Type.
Variable timer_function : T -> Env -> Z * Env.

(** [IntervalActionMEMFN(const T& cclass, const uint32_t iv)] *)
Definition construct (cclass : T) (iv : Z) (e : Env) : World Env (t T) :=
  let (now, e1) := timer_function cclass e in
  mkWorld e1 (mk iv now cclass) [Sample now].

(** [operator()(const U&& func)] *)
Definition operator_call (func : World Env (t T) -> World Env (t T))
    (w : World Env (t T)) : World Env (t T) :=
  let (now, e1) := timer_function (clock_ (gate w)) (env w) in
  if interval (gate w) <=? usub bits now (t_prev (gate w)) then
    let (now2, e2) := timer_function (clock_ (gate w)) e1 in
    func (mkWorld e2 (mk (interval (gate w)) now2 (clock_ (gate w)))
            (trace w ++ [Sample now; Sample now2; Store now2; Call]))
  else
    mkWorld e1 (gate w) (trace w ++ [Sample now]).

Fixpoint polls (n : nat) (func : World Env (t T) -> World Env (t T))
    (w : World Env (t T)) : World Env (t T) :=
  match n with
  | O => w
  | S k => operator_call func (polls k func w)
  end.

Definition fires (w : World Env (t T)) : bool :=
  interval (gate w) <=?
  usub bits (fst (timer_function (clock_ (gate w)) (env w))) (t_prev (gate w)).
End Methods.

Arguments construct {Env T} timer_function cclass iv e.
Arguments operator_call bits {Env T} timer_function func w.
Arguments polls bits {Env T} timer_function n func w.
Arguments fires bits {Env T} timer_function w.

End IntervalActionMEMFN.

(** ** [class IntervalActionTPL], whose template parameter is a type [FUNC]

    [FUNC] is the type of the callable; [invoke] is its call operator. *)

Module IntervalActionTPL.

Record t (FUNC : Type) : Type :=
    mk { timer_function : FUNC; interval : Z; t_prev : Z }.
Arguments mk {FUNC} _ _ _.
Arguments timer_function {FUNC} _.
Arguments interval {FUNC} _.
Arguments t_prev {FUNC} _.

Definition set_interval {FUNC : Type} (iv : Z) (g : t FUNC) : t FUNC :=
    mk (timer_function g) iv (t_prev g).
Definition get_interval {FUNC : Type} (g : t FUNC) : Z := interval g.
Definition get_prev {FUNC : Type} (g : t FUNC) : Z := t_prev g.

Section Methods.
Variable bits : N.
Variable Env : Type.
Variable FUNC : Type.
Variable invoke : FUNC -> Env -> Z * Env.

(** [IntervalActionTPL(const FUNC& tf, const uint32_t iv)] *)
Definition construct (tf : FUNC) (iv : Z) (e : Env) : World Env (t FUNC) :=
  let (now, e1) := invoke tf e in
  mkWorld e1 (mk tf iv now) [Sample now].

(** [operator()(const T&& func)] *)
Definition operator_call (func : World Env (t FUNC) -> World Env (t FUNC))
    (w : World Env (t FUNC)) : World Env (t FUNC) :=
  let (now, e1) := invoke (timer_function (gate w)) (env w) in
  if interval (gate w) <=? usub bits now (t_prev (gate w)) then
    let (now2, e2) := invoke (timer_function (gate w)) e1 in
    func (mkWorld e2 (mk (timer_function (gate w)) (interval (gate w)) now2)
            (trace w ++ [Sample now; Sample now2; Store now2; Call]))
  else
    mkWorld e1 (gate w) (trace w ++ [Sample now]).

Fixpoint polls (n : nat) (func : World Env (t FUNC) -> World Env (t FUNC))
    (w : World Env (t FUNC)) : World Env (t FUNC) :=
  match n with
  | O => w
  | S k => operator_call func (polls k func w)
  end.

Definition fires (w : World Env (t FUNC)) : bool :=
  interval (gate w) <=?
  usub bits (fst (invoke (timer_function (gate w)) (env w))) (t_prev (gate w)).
End Methods.

Arguments construct {Env FUNC} invoke tf iv e.
Arguments operator_call bits {Env FUNC} invoke func w.
Arguments polls bits {Env FUNC} invoke n func w.
Arguments fires bits {Env FUNC} invoke w.

End IntervalActionTPL.

(** ** The three variants side by side *)

(** A world of [IntervalActionMEMFN] bound to [obj] that shows what a world
    of [IntervalAction] shows. *)
Definition same_as_MEMFN {Env T : Type} (obj : T)
    (a : World Env IntervalAction.t)
    (m : World Env (IntervalActionMEMFN.t T)) : Prop :=
  env a = env m /\ trace a = trace m /\
  IntervalAction.get_interval (gate a) = IntervalActionMEMFN.get_interval (gate m) /\
  IntervalAction.get_prev (gate a) = IntervalActionMEMFN.get_prev (gate m) /\
  IntervalActionMEMFN.clock_ (gate m) = obj.

(** The same for a world of [IntervalActionTPL] bound to the callable [fn]. *)
Definition same_as_TPL {Env FUNC : Type} (fn : FUNC)
    (a : World Env IntervalAction.t)
    (p : World Env (IntervalActionTPL.t FUNC)) : Prop :=
  env a = env p /\ trace a = trace p /\
  IntervalAction.get_interval (gate a) = IntervalActionTPL.get_interval (gate p) /\
  IntervalAction.get_prev (gate a) = IntervalActionTPL.get_prev (gate p) /\
  IntervalActionTPL.timer_function (gate p) = fn.

(** Two units of work, written against two variants, that do the same. *)
Definition same_work {A B : Type} (R : A -> B -> Prop)
    (f : A -> A) (g : B -> B) : Prop :=
  forall a b, R a b -> R (f a) (g b).

(** ** The gating property with the compared reading stored

    Call number [k] of a gate constructed with interval [iv] on the time
    source [sampled reading]: the unit of work is called exactly when the
    compared reading is [iv] or more past [t_prev], and [t_prev] is then the
    compared reading. *)
Definition stores_compared_reading (bits : N) (reading : nat -> Z) (iv : Z)
    (k : nat) : Prop :=
  let tf := sampled reading in
  let w := IntervalAction.polls bits tf k noop (IntervalAction.construct tf iv 0%nat) in
  let t_k := IntervalAction.next_reading tf (env w) in
  (IntervalAction.fires bits tf w = true <->
   t_k - IntervalAction.t_prev (gate w) >= iv) /\
  (IntervalAction.fires bits tf w = true ->
   IntervalAction.t_prev (gate (IntervalAction.operator_call bits tf noop w)) = t_k).

(** A bounded ramp: readings 1000, 1300, 1600, ... up to 4000. *)
Definition ramp (n : nat) : Z := Z.min (1000 + 300 * Z.of_nat n) 4000.

(** ** More about traces *)

Definition is_store (e : event) : bool :=
  match e with Store _ => true | _ => false end.

Definition stores (tr : list event) : nat := length (filter is_store tr).

(** ** [class IntervalActionUstdClock]

    The gate hard-wired to [tool::clock.micros()].  The clock belongs to the
    ustd library, which is not part of this repository: it is the parameter
    [micros]. *)

Module IntervalActionUstdClock.

Record t : Type := mk { interval : Z; t_prev : Z }.

Definition set_interval (iv : Z) (g : t) : t := mk iv (t_prev g).
Definition get_interval (g : t) : Z := interval g.
Definition get_prev (g : t) : Z := t_prev g.

Section Methods.
Variable bits : N.
Variable Env : Type.
Variable micros : Env -> Z * Env.

(** [IntervalActionUstdClock(const uint32_t iv)] *)
Definition construct (iv : Z) (e : Env) : World Env t :=
  let (now, e1) := micros e in
  mkWorld e1 (mk iv now) [Sample now].

(** [operator()(const T&& func)] *)
Definition operator_call (func : World Env t -> World Env t)
    (w : World Env t) : World Env t :=
  let (now, e1) := micros (env w) in
  if interval (gate w) <=? usub bits now (t_prev (gate w)) then
    let (now2, e2) := micros e1 in
    func (mkWorld e2 (mk (interval (gate w)) now2)
            (trace w ++ [Sample now; Sample now2; Store now2; Call]))
  else
    mkWorld e1 (gate w) (trace w ++ [Sample now]).

Fixpoint polls (n : nat) (func : World Env t -> World Env t)
    (w : World Env t) : World Env t :=
  match n with
  | O => w
  | S k => operator_call func (polls k func w)
  end.

(** The condition of the [if]. *)
Definition fires (w : World Env t) : bool :=
  interval (gate w) <=? usub bits (fst (micros (env w))) (t_prev (gate w)).
End Methods.

Arguments construct {Env} micros iv e.
Arguments operator_call bits {Env} micros func w.
Arguments polls bits {Env} micros n func w.
Arguments fires bits {Env} micros w.

End IntervalActionUstdClock.

(** A world of [IntervalActionUstdClock] that shows what a world of
    [IntervalAction] shows. *)
Definition same_as_UstdClock {Env : Type}
    (a : World Env IntervalAction.t)
    (u : World Env IntervalActionUstdClock.t) : Prop :=
  env a = env u /\ trace a = trace u /\
  IntervalAction.get_interval (gate a) = IntervalActionUstdClock.get_interval (gate u) /\
  IntervalAction.get_prev (gate a) = IntervalActionUstdClock.get_prev (gate u).

(** ** The reporting macros

    [Serial] is the text sink of the Arduino core; what is written to it is
    kept as a list.  The statics of a macro and the sink are part of the
    state outside the gate. *)

Inductive output : Type :=
| Print_str (s : string)     (* [Serial.print] of a string literal *)
| Print_num (n : Z)          (* [Serial.print] of an unsigned integer *)
| Println_str (s : string)   (* [Serial.println] of a string literal *)
| Print_load (duty : Z).     (* [Serial.print(100*(float(duty) / 1'000'000))] *)

(** Unsigned division; dividing by zero has no defined result. *)
Definition udiv (a b : Z) : option Z :=
  if b =? 0 then None else Some (a / b).

(** *** [IA_PRINT_ITER_PER_SEC()] *)

Module IterPerSec.

Record statics (H : Type) : Type := mkStatics {
  hw : H;                     (* the state read by [tool::clock.micros()] *)
  _cnt_iter_per_sec : Z;      (* [static uint16_t] *)
  serial : list output;
  undefined : bool            (* a division by zero was executed *)
}.
Arguments mkStatics {H} _ _ _ _.
Arguments hw {H} _.
Arguments _cnt_iter_per_sec {H} _.
Arguments serial {H} _.
Arguments undefined {H} _.

Section Macro.
Variable H : Type.
Variable micros : H -> Z * H.

Definition state : Type := World (statics H) IntervalActionUstdClock.t.

(** [tool::clock.micros()] only touches the clock. *)
Definition clock (e : statics H) : Z * statics H :=
  let (now, h) := micros (hw e) in
  (now, mkStatics h (_cnt_iter_per_sec e) (serial e) (undefined e)).

(** [++_cnt_iter_per_sec;] *)
Definition count_pass (w : state) : state :=
  mkWorld (mkStatics (hw (env w))
             ((_cnt_iter_per_sec (env w) + 1) mod modulus 16)
             (serial (env w)) (undefined (env w)))
          (gate w) (trace w).

(** The lambda passed to [_ia_iter_per_sec]. *)
Definition report (w : state) : state :=
  let e := env w in
  let out := serial e ++ [Print_str "iter/sec: "; Print_num (_cnt_iter_per_sec e);
                          Print_str " ("] in
  match udiv (IntervalActionUstdClock.get_interval (gate w)) (_cnt_iter_per_sec e) with
  | Some avg =>
      mkWorld (mkStatics (hw e) 0
                 (out ++ [Print_num avg; Println_str " us average loop time)"])
                 (undefined e))
              (gate w) (trace w)
  | None => mkWorld (mkStatics (hw e) (_cnt_iter_per_sec e) out true) (gate w) (trace w)
  end.

(** One pass through the block once its statics exist. *)
Definition IA_PRINT_ITER_PER_SEC (w : state) : state :=
  IntervalActionUstdClock.operator_call uint32_bits clock report (count_pass w).

(** The first pass, which constructs [_ia_iter_per_sec(1'000'000)]; [h] is
    the state of the clock, the counter starts at 0. *)
Definition IA_PRINT_ITER_PER_SEC_first (h : H) (out : list output) : state :=
  IA_PRINT_ITER_PER_SEC
    (IntervalActionUstdClock.construct clock 1000000 (mkStatics h 0 out false)).

Fixpoint passes (n : nat) (w : state) : state :=
  match n with
  | O => w
  | S k => IA_PRINT_ITER_PER_SEC (passes k w)
  end.

(** Whether the gate opens at the next pass. *)
Definition due (w : state) : bool :=
  IntervalActionUstdClock.fires uint32_bits clock w.
End Macro.

Arguments clock {H} micros e.
Arguments count_pass {H} w.
Arguments report {H} w.
Arguments IA_PRINT_ITER_PER_SEC {H} micros w.
Arguments IA_PRINT_ITER_PER_SEC_first {H} micros h out.
Arguments passes {H} micros n w.
Arguments due {H} micros w.

End IterPerSec.

(** *** [IA_PRINT_LOAD(time_start, time_end)]

    The two arguments are taken as [uint32_t] readings of the clock. *)

Module PrintLoad.

Record statics (H : Type) : Type := mkStatics {
  hw : H;
  _duty_done : Z;             (* [static uint32_t] *)
  serial : list output
}.
Arguments mkStatics {H} _ _ _.
Arguments hw {H} _.
Arguments _duty_done {H} _.
Arguments serial {H} _.

Section Macro.
Variable H : Type.
Variable micros : H -> Z * H.

Definition state : Type := World (statics H) IntervalActionUstdClock.t.

Definition clock (e : statics H) : Z * statics H :=
  let (now, h) := micros (hw e) in
  (now, mkStatics h (_duty_done e) (serial e)).

(** [_duty_done += time_end - time_start;] *)
Definition add_span (time_start time_end : Z) (e : statics H) : statics H :=
  mkStatics (hw e)
    ((_duty_done e + usub uint32_bits time_end time_start) mod modulus uint32_bits)
    (serial e).

(** The lambda passed to [_ia_duty_cycle_report]. *)
Definition report (w : state) : state :=
  let e := env w in
  mkWorld (mkStatics (hw e) 0
             (serial e ++ [Print_str "Load: "; Print_load (_duty_done e);
                           Println_str "%"]))
          (gate w) (trace w).

(** One pass through the block once its statics exist. *)
Definition IA_PRINT_LOAD (time_start time_end : Z) (w : state) : state :=
  IntervalActionUstdClock.operator_call uint32_bits clock report
    (mkWorld (add_span time_start time_end (env w)) (gate w) (trace w)).

(** The first pass: the span is added, then
    [_ia_duty_cycle_report(1'000'000)] is constructed and called. *)
Definition IA_PRINT_LOAD_first (time_start time_end : Z) (h : H)
    (out : list output) : state :=
  IntervalActionUstdClock.operator_call uint32_bits clock report
    (IntervalActionUstdClock.construct clock 1000000
       (add_span time_start time_end (mkStatics h 0 out))).

(** The passes of a run, one per pair [(time_start, time_end)]. *)
Fixpoint passes (spans : list (Z * Z)) (w : state) : state :=
  match spans with
  | [] => w
  | (ts, te) :: rest => passes rest (IA_PRINT_LOAD ts te w)
  end.

Definition due (w : state) : bool :=
  IntervalActionUstdClock.fires uint32_bits clock w.

(** No pass of the run opens the gate. *)
Fixpoint quiet (spans : list (Z * Z)) (w : state) : bool :=
  match spans with
  | [] => true
  | (ts, te) :: rest => negb (due w) && quiet rest (IA_PRINT_LOAD ts te w)
  end.

(** The spans of a run added up. *)
Fixpoint total (spans : list (Z * Z)) : Z :=
  match spans with
  | [] => 0
  | (ts, te) :: rest => usub uint32_bits te ts + total rest
  end.
End Macro.

Arguments clock {H} micros e.
Arguments add_span {H} time_start time_end e.
Arguments report {H} w.
Arguments IA_PRINT_LOAD {H} micros time_start time_end w.
Arguments IA_PRINT_LOAD_first {H} micros time_start time_end h out.
Arguments passes {H} micros spans w.
Arguments due {H} micros w.
Arguments quiet {H} micros spans w.

End PrintLoad.

(** ** A counting stub

    The state outside the gate is the state of the clock together with a
    counter that belongs to the unit of work. *)

(** The time source [tf] beside the counter, which it does not touch. *)
Definition beside_counter {H : Type} (tf : H -> Z * H) (e : H * nat) : Z * (H * nat) :=
  let (now, h) := tf (fst e) in (now, (h, snd e)).

(** A unit of work that only counts how often it is invoked. *)
Definition counting_work {H G : Type} (w : World (H * nat) G) : World (H * nat) G :=
  mkWorld (fst (env w), S (snd (env w))) (gate w) (trace w).

(** * Properties of [IntervalAction] *)

Lemma modulus_pos (bits : N) : 0 < modulus bits.
Proof. unfold modulus. apply Z.pow_pos_nonneg; lia. Qed.

Lemma usub_nonneg (bits : N) (a b : Z) : 0 <= usub bits a b.
Proof.
  unfold usub. pose proof (modulus_pos bits) as Hm.
  apply Z.mod_pos_bound. exact Hm.
Qed.

Lemma usub_same (bits : N) (a : Z) : usub bits a a = 0.
Proof. unfold usub. rewrite Z.sub_diag. apply Z.mod_0_l. pose proof (modulus_pos bits); lia. Qed.

Lemma usub_no_wrap (bits : N) (a b : Z) :
  in_range bits a -> 0 <= b <= a -> usub bits a b = a - b.
Proof.
  unfold in_range, usub. intros Ha Hb. apply Z.mod_small. lia.
Qed.

Lemma calls_app (l1 l2 : list event) : calls (l1 ++ l2) = (calls l1 + calls l2)%nat.
Proof. unfold calls. rewrite filter_app, length_app. reflexivity. Qed.

Lemma samples_app (l1 l2 : list event) :
  samples (l1 ++ l2) = (samples l1 + samples l2)%nat.
Proof. unfold samples. rewrite filter_app, length_app. reflexivity. Qed.

Section IntervalActionFacts.
Variable bits : N.
Variable Env : Type.
Variable timer_function : Env -> Z * Env.

Local Abbreviation state := (World Env IntervalAction.t).
Local Abbreviation operator_call := (IntervalAction.operator_call bits timer_function).
Local Abbreviation polls := (IntervalAction.polls bits timer_function).
Local Abbreviation fires := (IntervalAction.fires bits timer_function).
Local Abbreviation elapsed := (IntervalAction.elapsed bits timer_function).
Local Abbreviation fired := (IntervalAction.fired timer_function).
Local Abbreviation idle := (IntervalAction.idle timer_function).
Local Abbreviation next_reading := (IntervalAction.next_reading timer_function).
Local Abbreviation second_reading := (IntervalAction.second_reading timer_function).
Local Abbreviation interval := IntervalAction.interval.
Local Abbreviation t_prev := IntervalAction.t_prev.

(** When the condition holds, the call is the unit of work run once, from
    the world [fired w]. *)
Lemma operator_call_fired (func : state -> state) (w : state) :
  fires w = true -> operator_call func w = func (fired w).
Proof.
  unfold IntervalAction.fires, IntervalAction.elapsed, IntervalAction.fired,
    IntervalAction.operator_call, IntervalAction.second_reading,
    IntervalAction.next_reading.
  intros H.
  destruct (timer_function (env w)) as [now e1]; cbn [fst snd] in *.
  rewrite H.
  destruct (timer_function e1) as [now2 e2]; cbn [fst snd].
  reflexivity.
Qed.

(** When it fails, the call leaves [idle w], whatever the unit of work. *)
Lemma operator_call_idle (func : state -> state) (w : state) :
  fires w = false -> operator_call func w = idle w.
Proof.
  unfold IntervalAction.fires, IntervalAction.elapsed, IntervalAction.idle,
    IntervalAction.operator_call, IntervalAction.next_reading.
  intros H.
  destruct (timer_function (env w)) as [now e1]; cbn [fst snd] in *.
  rewrite H. reflexivity.
Qed.

Lemma fires_true_iff (w : state) :
  fires w = true <-> interval (gate w) <= elapsed w.
Proof. unfold IntervalAction.fires. apply Z.leb_le. Qed.

Lemma fires_false_iff (w : state) :
  fires w = false <-> elapsed w < interval (gate w).
Proof. unfold IntervalAction.fires. apply Z.leb_gt. Qed.

(** ** Sampling *)

(** C10: a call whose condition holds calls the time source exactly twice,
    once for the comparison and once for the value assigned to [t_prev]; a
    call whose condition fails calls it exactly once.  What is stored is the
    second reading: when the two readings differ, [t_prev] is not the reading
    that was compared against the interval. *)
Theorem sampling_per_call (func : state -> state) (w : state) :
  (fires w = true ->
     operator_call func w = func (fired w) /\
     trace (fired w) =
       trace w ++ [Sample (next_reading (env w)); Sample (second_reading (env w));
                   Store (second_reading (env w)); Call] /\
     samples (trace (fired w)) = (samples (trace w) + 2)%nat /\
     env (fired w) = snd (timer_function (snd (timer_function (env w)))) /\
     t_prev (gate (fired w)) = second_reading (env w) /\
     (second_reading (env w) <> next_reading (env w) ->
      t_prev (gate (fired w)) <> next_reading (env w))) /\
  (fires w = false ->
     operator_call func w = idle w /\
     trace (idle w) = trace w ++ [Sample (next_reading (env w))] /\
     samples (trace (idle w)) = (samples (trace w) + 1)%nat /\
     env (idle w) = snd (timer_function (env w))).
Proof.
  split; intros H.
  - split; [apply operator_call_fired; exact H|].
    unfold IntervalAction.fired; cbn [trace env gate IntervalAction.t_prev].
    repeat split; try reflexivity.
    + rewrite samples_app. reflexivity.
    + intros Hd. exact Hd.
  - split; [apply operator_call_idle; exact H|].
    unfold IntervalAction.idle; cbn [trace env gate].
    repeat split. rewrite samples_app. reflexivity.
Qed.

(** ** Calls below the threshold *)

Lemma idle_gate (w : state) : gate (idle w) = gate w.
Proof. reflexivity. Qed.

Lemma idle_calls (w : state) : calls (trace (idle w)) = calls (trace w).
Proof.
  unfold IntervalAction.idle; cbn [trace]. rewrite calls_app.
  cbn. apply Nat.add_0_r.
Qed.

(** C3: calls whose computed elapsed time is below the interval leave
    [interval] and [t_prev] as they were and do not call the unit of work,
    however many of them are made in a row; each only calls the time source
    once, and the outcome does not depend on the unit of work passed. *)
Theorem idle_polls_no_effect (func : state -> state) (w : state) (n : nat) :
  (forall k, (k < n)%nat ->
     elapsed (polls k func w) < interval (gate (polls k func w))) ->
  gate (polls n func w) = gate w /\
  calls (trace (polls n func w)) = calls (trace w) /\
  samples (trace (polls n func w)) = (samples (trace w) + n)%nat /\
  (forall func' : state -> state, polls n func' w = polls n func w).
Proof.
  induction n as [|n IH]; intros Hlow.
  - cbn. repeat split. symmetry; apply Nat.add_0_r.
  - destruct IH as (Hg & Hc & Hs & Hf).
    { intros k Hk. apply Hlow. lia. }
    assert (Hidle : fires (polls n func w) = false).
    { apply fires_false_iff. apply Hlow. lia. }
    cbn [IntervalAction.polls].
    rewrite (operator_call_idle func _ Hidle).
    repeat split.
    + rewrite idle_gate. exact Hg.
    + rewrite idle_calls. exact Hc.
    + unfold IntervalAction.idle; cbn [trace]. rewrite samples_app, Hs. cbn. lia.
    + intros func'. rewrite (Hf func').
      rewrite (operator_call_idle func' _ Hidle). reflexivity.
Qed.

(** ** Interval zero *)

Lemma fires_at_zero (w : state) : interval (gate w) = 0 -> fires w = true.
Proof. intros Hz. apply fires_true_iff. rewrite Hz. apply usub_nonneg. Qed.

Lemma fired_calls (w : state) : calls (trace (fired w)) = S (calls (trace w)).
Proof.
  unfold IntervalAction.fired; cbn [trace]. rewrite calls_app. cbn. lia.
Qed.

(** Only the unit of work can change [interval]. *)
Lemma polls_keep_interval (func : state -> state) (w : state) (k : nat) :
  IntervalAction.keeps_gate func ->
  interval (gate (polls k func w)) = interval (gate w).
Proof.
  intros Hk. induction k as [|k IH]; [reflexivity|].
  cbn [IntervalAction.polls].
  destruct (fires (polls k func w)) eqn:Hf.
  - rewrite (operator_call_fired func _ Hf), Hk. exact IH.
  - rewrite (operator_call_idle func _ Hf). exact IH.
Qed.

(** C4: with [interval = 0] the condition holds at every call, whatever the
    elapsed time (zero included): the unit of work is called and [t_prev] is
    assigned. *)
Theorem zero_interval_always_fires (func : state -> state) (w : state) :
  interval (gate w) = 0 ->
  fires w = true /\
  operator_call func w = func (fired w) /\
  calls (trace (fired w)) = S (calls (trace w)) /\
  t_prev (gate (fired w)) = second_reading (env w) /\
  interval (gate (fired w)) = 0 /\
  (IntervalAction.keeps_gate func ->
   forall k, fires (polls k func w) = true /\
             polls (S k) func w = func (fired (polls k func w))).
Proof.
  intros Hz.
  pose proof (fires_at_zero w Hz) as Hf.
  split; [exact Hf|]. split; [apply operator_call_fired; exact Hf|].
  split; [apply fired_calls|].
  split; [reflexivity|]. split; [exact Hz|].
  intros Hk k.
  assert (Hfk : fires (polls k func w) = true).
  { apply fires_at_zero. rewrite polls_keep_interval; assumption. }
  split; [exact Hfk|].
  cbn [IntervalAction.polls]. apply operator_call_fired. exact Hfk.
Qed.

(** ** Wraparound *)

(** C2: the elapsed time is [(now - t_prev) mod 2 ^ bits].  For a
    free-running counter whose true count went from [T0] (at the last
    assignment of [t_prev]) to [T1] (now), less than one full period later,
    the readings are [T0] and [T1] modulo [2 ^ bits] and the computed elapsed
    time is exactly [T1 - T0], also when the counter wrapped in between; the
    unit of work is called exactly when [T1 - T0] reaches the interval. *)
Theorem wraparound_safe (func : state -> state) (w : state) (T0 T1 : Z) :
  t_prev (gate w) = T0 mod modulus bits ->
  next_reading (env w) = T1 mod modulus bits ->
  0 <= T1 - T0 < modulus bits ->
  elapsed w = (next_reading (env w) - t_prev (gate w)) mod 2 ^ Z.of_N bits /\
  elapsed w = T1 - T0 /\
  (fires w = true <-> interval (gate w) <= T1 - T0) /\
  (interval (gate w) <= T1 - T0 -> operator_call func w = func (fired w)) /\
  (T1 - T0 < interval (gate w) -> operator_call func w = idle w).
Proof.
  intros Hp Hn Hd.
  assert (He : elapsed w = T1 - T0).
  { unfold IntervalAction.elapsed, usub. rewrite Hp, Hn.
    rewrite <- Zminus_mod. apply Z.mod_small. exact Hd. }
  split; [reflexivity|]. split; [exact He|].
  split; [rewrite fires_true_iff, He; reflexivity|].
  split; intros Hi.
  - apply operator_call_fired. apply fires_true_iff. rewrite He. exact Hi.
  - apply operator_call_idle. apply fires_false_iff. rewrite He. exact Hi.
Qed.

(** ** Two calls at the same timestamp *)

(** C6: when the time source stands at [t] and the interval is positive, two
    calls in a row call the unit of work at most once in total: if the first
    one does, the second computes an elapsed time of 0 and does not. *)
Theorem no_double_fire (func : state -> state) (w : state) (t : Z) :
  (forall e, next_reading e = t) ->
  IntervalAction.keeps_gate func ->
  0 < interval (gate w) ->
  (fires w = true ->
     elapsed (operator_call func w) = 0 /\
     fires (operator_call func w) = false /\
     operator_call func (operator_call func w) = idle (func (fired w))) /\
  (Nat.b2n (fires w) + Nat.b2n (fires (operator_call func w)) <= 1)%nat /\
  (IntervalAction.keeps_trace func ->
   (calls (trace (operator_call func (operator_call func w)))
    <= S (calls (trace w)))%nat).
Proof.
  intros Hsame Hkeep Hpos.
  assert (H1 : fires w = true ->
               elapsed (operator_call func w) = 0 /\
               fires (operator_call func w) = false).
  { intros Hf. rewrite (operator_call_fired func w Hf).
    assert (He : elapsed (func (fired w)) = 0).
    { unfold IntervalAction.elapsed. rewrite Hkeep.
      unfold IntervalAction.fired; cbn [gate IntervalAction.t_prev].
      unfold IntervalAction.second_reading. rewrite !Hsame. apply usub_same. }
    split; [exact He|].
    apply fires_false_iff. rewrite He, Hkeep. exact Hpos. }
  split.
  - intros Hf. destruct (H1 Hf) as [He Hn]. repeat split; try assumption.
    rewrite (operator_call_idle func _ Hn).
    rewrite (operator_call_fired func w Hf). reflexivity.
  - split.
    + destruct (fires w) eqn:Hf.
      * destruct (H1 eq_refl) as [_ Hn]. rewrite Hn. cbn. lia.
      * cbn. destruct (fires (operator_call func w)); cbn; lia.
    + intros Htr. destruct (fires w) eqn:Hf.
      * destruct (H1 eq_refl) as [_ Hn].
        rewrite (operator_call_idle func _ Hn), idle_calls.
        rewrite (operator_call_fired func w Hf), Htr, fired_calls. lia.
      * rewrite (operator_call_idle func w Hf).
        destruct (fires (idle w)) eqn:Hf2.
        -- rewrite (operator_call_fired func _ Hf2), Htr, fired_calls, idle_calls. lia.
        -- rewrite (operator_call_idle func _ Hf2), !idle_calls. lia.
Qed.

(** ** Order of the assignment and the call *)

(** C7, as the code has it: when the condition holds, [t_prev] is assigned
    before the unit of work is called: the unit of work starts in a world
    where [get_prev] already returns the new reading, and the trace ends with
    the assignment followed by the call.  A unit of work that calls the same
    gate again has its comparison made against the new [t_prev]: the inner
    call fires again exactly when the interval has passed since that
    assignment, and does nothing otherwise; with a positive interval and no
    time passed the unit of work is called once. *)
Theorem update_before_call (func inner : state -> state) (w : state) :
  fires w = true ->
  operator_call func w = func (fired w) /\
  IntervalAction.get_prev (gate (fired w)) = second_reading (env w) /\
  trace (fired w) =
    (trace w ++ [Sample (next_reading (env w)); Sample (second_reading (env w))])
    ++ [Store (second_reading (env w)); Call] /\
  elapsed (fired w) =
    usub bits (next_reading (env (fired w))) (second_reading (env w)) /\
  (fires (fired w) = true ->
     interval (gate w) <=
     usub bits (next_reading (env (fired w))) (second_reading (env w))) /\
  (interval (gate w)
   <= usub bits (next_reading (env (fired w))) (second_reading (env w)) ->
     operator_call (operator_call inner) w = inner (fired (fired w)) /\
     calls (trace (fired (fired w))) = S (S (calls (trace w)))) /\
  (usub bits (next_reading (env (fired w))) (second_reading (env w))
   < interval (gate w) ->
     operator_call (operator_call inner) w = idle (fired w) /\
     calls (trace (idle (fired w))) = S (calls (trace w))) /\
  (0 < interval (gate w) ->
   next_reading (env (fired w)) = second_reading (env w) ->
     operator_call (operator_call inner) w = idle (fired w) /\
     calls (trace (operator_call (operator_call inner) w)) = S (calls (trace w))).
Proof.
  intros Hf.
  assert (Hidle : usub bits (next_reading (env (fired w))) (second_reading (env w))
                  < interval (gate w) ->
                  operator_call (operator_call inner) w = idle (fired w)).
  { intros Hlt.
    assert (Hn : fires (fired w) = false) by (apply fires_false_iff; exact Hlt).
    rewrite (operator_call_fired _ w Hf), (operator_call_idle inner _ Hn).
    reflexivity. }
  split; [apply operator_call_fired; exact Hf|].
  split; [reflexivity|].
  split.
  { unfold IntervalAction.fired; cbn [trace]. rewrite <- app_assoc. reflexivity. }
  split; [reflexivity|].
  split.
  { intros Hin. apply fires_true_iff in Hin. exact Hin. }
  split.
  { intros Hle.
    assert (Hy : fires (fired w) = true) by (apply fires_true_iff; exact Hle).
    rewrite (operator_call_fired _ w Hf), (operator_call_fired inner _ Hy).
    split; [reflexivity|]. rewrite !fired_calls. reflexivity. }
  split.
  { intros Hlt. split; [apply Hidle; exact Hlt|].
    rewrite idle_calls. apply fired_calls. }
  intros Hpos Hsame.
  assert (Hlt : usub bits (next_reading (env (fired w))) (second_reading (env w))
                < interval (gate w)).
  { rewrite Hsame, usub_same. exact Hpos. }
  rewrite (Hidle Hlt). split; [reflexivity|].
  rewrite idle_calls. apply fired_calls.
Qed.

(** ** Reconfiguration from the unit of work *)

(** C8: a unit of work that calls [set_interval iv'] does not change the
    decision of the call it runs under, which was taken with the old
    interval (the number of calls of the unit of work is the same for every
    [iv']); the new value is in place when the call returns and is the one
    the next call compares against. *)
Theorem set_interval_from_work (iv' : Z) (w : state) :
  let work := on_gate (IntervalAction.set_interval iv') in
  let w1 := operator_call work w in
  fires w = (interval (gate w) <=? elapsed w) /\
  (forall iv2 : Z,
     calls (trace (operator_call (on_gate (IntervalAction.set_interval iv2)) w))
     = calls (trace w1)) /\
  (fires w = true ->
     w1 = work (fired w) /\
     interval (gate w1) = iv' /\
     t_prev (gate w1) = second_reading (env w) /\
     fires w1 = (iv' <=? elapsed w1)) /\
  (fires w = false -> w1 = idle w /\ interval (gate w1) = interval (gate w)).
Proof.
  intros work w1. subst work w1.
  split; [reflexivity|].
  destruct (fires w) eqn:Hf.
  - split.
    { intros iv2. rewrite !(operator_call_fired _ w Hf). reflexivity. }
    split; [|discriminate].
    intros _. rewrite (operator_call_fired _ w Hf).
    repeat split.
  - split.
    { intros iv2. rewrite !(operator_call_idle _ w Hf). reflexivity. }
    split; [discriminate|].
    intros _. rewrite (operator_call_idle _ w Hf). split; reflexivity.
Qed.

(** ** Construction *)

(** C5, as the code has it: the constructor calls the time source once and
    stores the reading as [t_prev] and [iv] as [interval].  The first call
    calls the unit of work exactly when the reading it compares is [iv] or
    more (modulo [2 ^ bits]) past the reading of the constructor, and does
    nothing otherwise.  For a positive [iv] a first call that reads the time
    of construction does nothing; for [iv = 0] the first call fires. *)
Theorem construct_then_first_poll (func : state -> state) (iv : Z) (e : Env) :
  let w := IntervalAction.construct timer_function iv e in
  interval (gate w) = iv /\
  t_prev (gate w) = next_reading e /\
  env w = snd (timer_function e) /\
  trace w = [Sample (next_reading e)] /\
  (iv <= usub bits (second_reading e) (next_reading e) ->
     operator_call func w = func (fired w) /\
     calls (trace (fired w)) = 1%nat /\
     t_prev (gate (fired w)) = second_reading (env w)) /\
  (usub bits (second_reading e) (next_reading e) < iv ->
     operator_call func w = idle w /\
     gate (idle w) = IntervalAction.mk iv (next_reading e) /\
     calls (trace (idle w)) = 0%nat) /\
  (fires w = true <-> iv <= usub bits (second_reading e) (next_reading e)) /\
  (0 < iv -> second_reading e = next_reading e ->
     fires w = false /\ operator_call func w = idle w) /\
  (iv = 0 -> operator_call func w = func (fired w)).
Proof.
  intros w. subst w.
  assert (Hc : IntervalAction.construct timer_function iv e =
               mkWorld (snd (timer_function e))
                 (IntervalAction.mk iv (next_reading e)) [Sample (next_reading e)]).
  { unfold IntervalAction.construct, IntervalAction.next_reading.
    destruct (timer_function e); reflexivity. }
  rewrite Hc.
  set (w := mkWorld (snd (timer_function e))
              (IntervalAction.mk iv (next_reading e)) [Sample (next_reading e)]).
  assert (Hel : elapsed w = usub bits (second_reading e) (next_reading e))
    by reflexivity.
  assert (Hidle : usub bits (second_reading e) (next_reading e) < iv ->
                  fires w = false).
  { intros Hlt. apply fires_false_iff. rewrite Hel. exact Hlt. }
  split; [reflexivity|]. split; [reflexivity|].
  split; [reflexivity|]. split; [reflexivity|].
  split.
  { intros Hle. split; [|split; reflexivity].
    apply operator_call_fired. apply fires_true_iff. rewrite Hel. exact Hle. }
  split.
  { intros Hlt. split; [|split; reflexivity].
    apply operator_call_idle. apply Hidle. exact Hlt. }
  split; [apply fires_true_iff|].
  split.
  - intros Hpos Hsame.
    assert (Hn : fires w = false).
    { apply Hidle. rewrite Hsame, usub_same. exact Hpos. }
    split; [exact Hn|]. apply operator_call_idle. exact Hn.
  - intros Hz. apply operator_call_fired, fires_at_zero. exact Hz.
Qed.

End IntervalActionFacts.

(** The scenario of the specification: gate constructed at 1000 with
    interval 500, calls at 1200, 1600 and 1650. *)
Example scenario :
  let tf := replay [1000; 1200; 1600; 1600; 1650] in
  let w0 := IntervalAction.construct tf 500 0%nat in
  let w1 := IntervalAction.operator_call uint32_bits tf noop w0 in
  let w2 := IntervalAction.operator_call uint32_bits tf noop w1 in
  let w3 := IntervalAction.operator_call uint32_bits tf noop w2 in
  gate w0 = IntervalAction.mk 500 1000 /\
  gate w1 = IntervalAction.mk 500 1000 /\ calls (trace w1) = 0%nat /\
  gate w2 = IntervalAction.mk 500 1600 /\ calls (trace w2) = 1%nat /\
  gate w3 = IntervalAction.mk 500 1600 /\ calls (trace w3) = 1%nat.
Proof. vm_compute. repeat split. Qed.

(** ** Gating over a run of calls *)

Lemma monotone_readings (reading : nat -> Z) :
  (forall n, reading n <= reading (S n)) ->
  forall m n, (m <= n)%nat -> reading m <= reading n.
Proof.
  intros Hstep m n Hle. induction Hle as [|n Hle IH].
  - lia.
  - specialize (Hstep n). lia.
Qed.

(** Along a run, [interval] keeps its initial value and [t_prev] is a
    reading taken earlier than the next one. *)
Lemma gating_invariant (bits : N) (reading : nat -> Z) (iv : Z)
    (func : World nat IntervalAction.t -> World nat IntervalAction.t) (k : nat) :
  IntervalAction.keeps_gate func -> IntervalAction.keeps_env func ->
  let w := IntervalAction.polls bits (sampled reading) k func
             (IntervalAction.construct (sampled reading) iv 0%nat) in
  IntervalAction.interval (gate w) = iv /\
  exists m, (m < env w)%nat /\ IntervalAction.t_prev (gate w) = reading m.
Proof.
  intros Hg He. induction k as [|k IH]; cbn zeta in *.
  - cbn. split; [reflexivity|]. exists 0%nat. split; [lia|reflexivity].
  - cbn [IntervalAction.polls].
    set (w := IntervalAction.polls bits (sampled reading) k func
                (IntervalAction.construct (sampled reading) iv 0%nat)) in *.
    destruct IH as (Hiv & m & Hm & Hp).
    destruct (IntervalAction.fires bits (sampled reading) w) eqn:Hf.
    + rewrite (operator_call_fired _ _ _ func w Hf).
      rewrite (Hg (IntervalAction.fired (sampled reading) w)).
      rewrite (He (IntervalAction.fired (sampled reading) w)).
      cbn. split; [exact Hiv|]. exists (S (env w)). split; [lia|reflexivity].
    + rewrite (operator_call_idle _ _ _ func w Hf).
      cbn. split; [exact Hiv|]. exists m. split; [lia|exact Hp].
Qed.

(** C1, as the code has it: at call number [k] of any run, when the
    reading compared [t_k] is an unsigned value not below [t_prev] (no
    wraparound), the unit of work is called if and only if
    [t_k - t_prev >= interval]: then the call is the unit of work run once,
    from a world where [t_prev] has been assigned the second reading of that
    call, which is [t_k] when the time source returns the same reading
    twice; otherwise the call leaves the gate as it was and calls nothing. *)
Theorem gating_correct (bits : N) (Env : Type) (tf : Env -> Z * Env)
    (func : World Env IntervalAction.t -> World Env IntervalAction.t)
    (w0 : World Env IntervalAction.t) (k : nat) :
  let w := IntervalAction.polls bits tf k func w0 in
  let t_k := IntervalAction.next_reading tf (env w) in
  let last_fire := IntervalAction.t_prev (gate w) in
  let iv := IntervalAction.interval (gate w) in
  in_range bits t_k -> 0 <= last_fire <= t_k ->
  (t_k - last_fire >= iv ->
     IntervalAction.polls bits tf (S k) func w0
     = func (IntervalAction.fired tf w) /\
     calls (trace (IntervalAction.fired tf w)) = S (calls (trace w)) /\
     IntervalAction.t_prev (gate (IntervalAction.fired tf w))
     = IntervalAction.second_reading tf (env w) /\
     IntervalAction.interval (gate (IntervalAction.fired tf w)) = iv /\
     (IntervalAction.second_reading tf (env w) = t_k ->
      IntervalAction.t_prev (gate (IntervalAction.fired tf w)) = t_k)) /\
  (t_k - last_fire < iv ->
     IntervalAction.polls bits tf (S k) func w0 = IntervalAction.idle tf w /\
     gate (IntervalAction.idle tf w) = gate w /\
     calls (trace (IntervalAction.idle tf w)) = calls (trace w)) /\
  (IntervalAction.fires bits tf w = true <-> t_k - last_fire >= iv).
Proof.
  intros w t_k last_fire iv Hr Hle.
  assert (Hel : IntervalAction.elapsed bits tf w = t_k - last_fire).
  { unfold IntervalAction.elapsed. fold t_k. fold last_fire.
    apply usub_no_wrap; assumption. }
  cbn [IntervalAction.polls]. fold w.
  split.
  { intros Hge.
    assert (Hf : IntervalAction.fires bits tf w = true).
    { apply fires_true_iff. rewrite Hel. fold iv. lia. }
    split; [apply operator_call_fired; exact Hf|].
    split; [apply fired_calls|].
    split; [reflexivity|]. split; [reflexivity|].
    intros Hsame. exact Hsame. }
  split.
  { intros Hlt.
    assert (Hf : IntervalAction.fires bits tf w = false).
    { apply fires_false_iff. rewrite Hel. exact Hlt. }
    split; [apply operator_call_idle; exact Hf|].
    split; [reflexivity|]. apply idle_calls. }
  rewrite fires_true_iff, Hel. fold iv. lia.
Qed.

(** * The three variants make the same decisions *)

Section Variants.
Variable bits : N.
Variable Env : Type.
Variable T : Type.
Variable FUNC : Type.
Variable tf : Env -> Z * Env.
Variable meth : T -> Env -> Z * Env.
Variable invoke : FUNC -> Env -> Z * Env.
Variable obj : T.
Variable fn : FUNC.

(** The three gates are bound to the same time source. *)
Hypothesis meth_obj : forall e, meth obj e = tf e.
Hypothesis invoke_fn : forall e, invoke fn e = tf e.

Lemma construct_same_MEMFN (iv : Z) (e : Env) :
  same_as_MEMFN obj (IntervalAction.construct tf iv e)
                    (IntervalActionMEMFN.construct meth obj iv e).
Proof.
  unfold IntervalAction.construct, IntervalActionMEMFN.construct.
  rewrite meth_obj. destruct (tf e) as [now e1].
  repeat split.
Qed.

Lemma construct_same_TPL (iv : Z) (e : Env) :
  same_as_TPL fn (IntervalAction.construct tf iv e)
                 (IntervalActionTPL.construct invoke fn iv e).
Proof.
  unfold IntervalAction.construct, IntervalActionTPL.construct.
  rewrite invoke_fn. destruct (tf e) as [now e1].
  repeat split.
Qed.

Lemma operator_call_same_MEMFN f1 f2 a m :
  same_work (same_as_MEMFN obj) f1 f2 ->
  same_as_MEMFN obj a m ->
  same_as_MEMFN obj (IntervalAction.operator_call bits tf f1 a)
                    (IntervalActionMEMFN.operator_call bits meth f2 m) /\
  IntervalAction.fires bits tf a = IntervalActionMEMFN.fires bits meth m.
Proof.
  intros Hw (He & Ht & Hi & Hp & Hc).
  destruct a as [ea [ia pa] ta], m as [em [im pm cm] tm].
  cbn in He, Ht, Hi, Hp, Hc. subst em tm im pm cm.
  unfold IntervalAction.operator_call, IntervalActionMEMFN.operator_call,
    IntervalAction.fires, IntervalActionMEMFN.fires, IntervalAction.elapsed,
    IntervalAction.next_reading.
  cbn [env gate trace IntervalAction.interval IntervalAction.t_prev
       IntervalActionMEMFN.interval IntervalActionMEMFN.t_prev
       IntervalActionMEMFN.clock_].
  rewrite meth_obj. destruct (tf ea) as [now e1]. cbn [fst].
  split; [|reflexivity].
  destruct (ia <=? usub bits now pa).
  - rewrite meth_obj. destruct (tf e1) as [now2 e2].
    apply Hw. repeat split.
  - repeat split.
Qed.

Lemma operator_call_same_TPL f1 f3 a p :
  same_work (same_as_TPL fn) f1 f3 ->
  same_as_TPL fn a p ->
  same_as_TPL fn (IntervalAction.operator_call bits tf f1 a)
                 (IntervalActionTPL.operator_call bits invoke f3 p) /\
  IntervalAction.fires bits tf a = IntervalActionTPL.fires bits invoke p.
Proof.
  intros Hw (He & Ht & Hi & Hp & Hc).
  destruct a as [ea [ia pa] ta], p as [ep [fp ip pp] tp].
  cbn in He, Ht, Hi, Hp, Hc. subst ep tp ip pp fp.
  unfold IntervalAction.operator_call, IntervalActionTPL.operator_call,
    IntervalAction.fires, IntervalActionTPL.fires, IntervalAction.elapsed,
    IntervalAction.next_reading.
  cbn [env gate trace IntervalAction.interval IntervalAction.t_prev
       IntervalActionTPL.interval IntervalActionTPL.t_prev
       IntervalActionTPL.timer_function].
  rewrite invoke_fn. destruct (tf ea) as [now e1]. cbn [fst].
  split; [|reflexivity].
  destruct (ia <=? usub bits now pa).
  - rewrite invoke_fn. destruct (tf e1) as [now2 e2].
    apply Hw. repeat split.
  - repeat split.
Qed.

(** C9: bound to the same time source, constructed with the same interval
    and called with units of work that do the same, the free-function
    variant, the bound-method variant and the callable-value variant stay in
    step over any number of calls: same readings consumed, same steps taken,
    equal [interval] and [t_prev], and the same decision at the next call. *)
Theorem variants_agree f1 f2 f3 (iv : Z) (e : Env) (n : nat) :
  same_work (same_as_MEMFN obj) f1 f2 ->
  same_work (same_as_TPL fn) f1 f3 ->
  let a := IntervalAction.polls bits tf n f1 (IntervalAction.construct tf iv e) in
  let m := IntervalActionMEMFN.polls bits meth n f2
             (IntervalActionMEMFN.construct meth obj iv e) in
  let p := IntervalActionTPL.polls bits invoke n f3
             (IntervalActionTPL.construct invoke fn iv e) in
  same_as_MEMFN obj a m /\ same_as_TPL fn a p /\
  IntervalAction.fires bits tf a = IntervalActionMEMFN.fires bits meth m /\
  IntervalAction.fires bits tf a = IntervalActionTPL.fires bits invoke p.
Proof.
  intros H2 H3. cbn zeta.
  assert (Hrel : same_as_MEMFN obj
            (IntervalAction.polls bits tf n f1 (IntervalAction.construct tf iv e))
            (IntervalActionMEMFN.polls bits meth n f2
               (IntervalActionMEMFN.construct meth obj iv e)) /\
          same_as_TPL fn
            (IntervalAction.polls bits tf n f1 (IntervalAction.construct tf iv e))
            (IntervalActionTPL.polls bits invoke n f3
               (IntervalActionTPL.construct invoke fn iv e))).
  { induction n as [|k IH].
    - split; [apply construct_same_MEMFN|apply construct_same_TPL].
    - destruct IH as [IHm IHp].
      cbn [IntervalAction.polls IntervalActionMEMFN.polls IntervalActionTPL.polls].
      split.
      + apply (operator_call_same_MEMFN f1 f2 _ _ H2 IHm).
      + apply (operator_call_same_TPL f1 f3 _ _ H3 IHp). }
  destruct Hrel as [Hm Hp].
  split; [exact Hm|]. split; [exact Hp|].
  split.
  - apply (operator_call_same_MEMFN f1 f2 _ _ H2 Hm).
  - apply (operator_call_same_TPL f1 f3 _ _ H3 Hp).
Qed.

End Variants.

(** * Instances *)

(** The time source advances between the two readings of a firing call:
    constructed at 100 with interval 1, the first call compares 101 and
    stores 102. *)
Lemma stored_reading_is_not_compared :
  ~ stores_compared_reading uint32_bits (fun n => 100 + Z.of_nat n) 1 0.
Proof.
  unfold stores_compared_reading. cbn zeta. intros [_ H].
  specialize (H eq_refl). vm_compute in H. discriminate H.
Qed.

(** With interval 0 the first call after construction fires although no
    time has passed since the constructor read the time source. *)
Lemma first_poll_fires_at_once :
  let tf := steady 1000 in
  let w := IntervalAction.construct tf 0 0%nat in
  IntervalAction.get_prev (gate w) = 1000 /\
  IntervalAction.elapsed uint32_bits tf w = 0 /\
  IntervalAction.fires uint32_bits tf w = true /\
  calls (trace (IntervalAction.operator_call uint32_bits tf noop w)) = 1%nat.
Proof. vm_compute. repeat split. Qed.

(** A unit of work that calls its own gate again after the clock has moved
    on by the interval: gate at [t_prev = 0] with interval 10, readings 50
    and 50 for the outer call, 60 and 60 for the inner one.  The unit of work
    starts with [t_prev = 50] already stored, and the inner call fires
    again. *)
Lemma reentrant_work_fires_twice :
  let tf := replay [50; 50; 60; 60] in
  let w := mkWorld 0%nat (IntervalAction.mk 10 0) [] in
  let inner := IntervalAction.operator_call uint32_bits tf noop in
  IntervalAction.get_prev (gate (IntervalAction.fired tf w)) = 50 /\
  trace (IntervalAction.operator_call uint32_bits tf inner w)
  = [Sample 50; Sample 50; Store 50; Call; Sample 60; Sample 60; Store 60; Call] /\
  calls (trace (IntervalAction.operator_call uint32_bits tf inner w)) = 2%nat.
Proof. vm_compute. repeat split. Qed.

(** The wrap of a 32-bit counter: [t_prev] six ticks before the wrap, the
    reading four ticks after it, interval 10. *)
Example wraparound_uint32 :
  let w := mkWorld 0%nat (IntervalAction.mk 10 4294967290) [] in
  IntervalAction.elapsed uint32_bits (steady 4) w = 10 /\
  gate (IntervalAction.operator_call uint32_bits (steady 4) noop w)
  = IntervalAction.mk 10 4 /\
  calls (trace (IntervalAction.operator_call uint32_bits (steady 4) noop w)) = 1%nat.
Proof. vm_compute. repeat split. Qed.

Lemma ramp_in_range (n : nat) : in_range uint32_bits (ramp n).
Proof.
  unfold in_range, ramp. change (modulus uint32_bits) with 4294967296. lia.
Defined.

Lemma ramp_monotone (n : nat) : ramp n <= ramp (S n).
Proof. unfold ramp. lia. Defined.

Lemma gating_correct_witness :
  let tf := sampled ramp in
  let w0 := IntervalAction.construct tf 500 0%nat in
  let w := IntervalAction.polls uint32_bits tf 1 noop w0 in
  IntervalAction.next_reading tf (env w) - IntervalAction.t_prev (gate w) = 600 /\
  IntervalAction.polls uint32_bits tf 2 noop w0 = noop (IntervalAction.fired tf w) /\
  calls (trace (IntervalAction.fired tf w)) = S (calls (trace w)) /\
  IntervalAction.t_prev (gate (IntervalAction.fired tf w)) = 1900.
Proof.
  intros tf w0 w.
  assert (Hr : in_range uint32_bits (IntervalAction.next_reading tf (env w))).
  { vm_compute. split; [discriminate | reflexivity]. }
  assert (Hle : 0 <= IntervalAction.t_prev (gate w)
                  <= IntervalAction.next_reading tf (env w)).
  { vm_compute. split; discriminate. }
  destruct (gating_correct uint32_bits nat tf noop w0 1 Hr Hle) as (Hfire & _).
  destruct Hfire as (Hcall & Hc & Hp & _).
  { vm_compute. discriminate. }
  split; [reflexivity|]. split; [exact Hcall|]. split; [exact Hc | exact Hp].
Defined.

(** The example of the specification at 8 bits: [t_prev = 250], interval 10,
    reading 4 after the wrap; the true counts are 250 and 260. *)
Lemma wraparound_safe_witness :
  let w := mkWorld 0%nat (IntervalAction.mk 10 250) [] in
  (0 <= 260 - 250 < modulus 8) /\
  IntervalAction.elapsed 8 (steady 4) w = 260 - 250 /\
  IntervalAction.operator_call 8 (steady 4) noop w
  = noop (IntervalAction.fired (steady 4) w).
Proof.
  intros w.
  assert (Hd : 0 <= 260 - 250 < modulus 8).
  { change (modulus 8) with 256. lia. }
  destruct (wraparound_safe 8 nat (steady 4) noop w 250 260 eq_refl eq_refl Hd)
    as (_ & He & _ & Hf & _).
  split; [exact Hd|]. split; [exact He|].
  apply Hf. cbn. lia.
Defined.

Lemma idle_polls_no_effect_witness :
  let tf := replay [1000; 1100; 1200; 1300] in
  let w := IntervalAction.construct tf 500 0%nat in
  gate (IntervalAction.polls uint32_bits tf 3 noop w) = IntervalAction.mk 500 1000 /\
  calls (trace (IntervalAction.polls uint32_bits tf 3 noop w)) = 0%nat.
Proof.
  intros tf w.
  assert (Hlow : forall k, (k < 3)%nat ->
            IntervalAction.elapsed uint32_bits tf (IntervalAction.polls uint32_bits tf k noop w)
            < IntervalAction.interval (gate (IntervalAction.polls uint32_bits tf k noop w))).
  { intros k Hk. destruct k as [|[|[|k]]]; [reflexivity | reflexivity | reflexivity | lia]. }
  destruct (idle_polls_no_effect uint32_bits nat tf noop w 3 Hlow) as (Hg & Hc & _).
  split; [exact Hg | exact Hc].
Defined.

Lemma zero_interval_always_fires_witness :
  let w := mkWorld 0%nat (IntervalAction.mk 0 7) [] in
  IntervalAction.fires uint32_bits (steady 7) w = true /\
  IntervalAction.operator_call uint32_bits (steady 7) noop w
  = noop (IntervalAction.fired (steady 7) w).
Proof.
  intros w.
  destruct (zero_interval_always_fires uint32_bits nat (steady 7) noop w eq_refl)
    as (Hf & Hc & _).
  split; [exact Hf | exact Hc].
Defined.

Lemma construct_then_first_poll_witness :
  let w := IntervalAction.construct (steady 1000) 500 0%nat in
  IntervalAction.fires uint32_bits (steady 1000) w = false /\
  IntervalAction.operator_call uint32_bits (steady 1000) noop w
  = IntervalAction.idle (steady 1000) w.
Proof.
  intros w.
  destruct (construct_then_first_poll uint32_bits nat (steady 1000) noop 500 0%nat)
    as (_ & _ & _ & _ & _ & _ & _ & H & _).
  apply H; [lia | reflexivity].
Defined.

Lemma no_double_fire_witness :
  let w := mkWorld 0%nat (IntervalAction.mk 10 0) [] in
  let w1 := IntervalAction.operator_call uint32_bits (steady 50) noop w in
  IntervalAction.fires uint32_bits (steady 50) w = true /\
  IntervalAction.fires uint32_bits (steady 50) w1 = false.
Proof.
  intros w w1.
  assert (Hs : forall e, IntervalAction.next_reading (steady 50) e = 50).
  { intros e. reflexivity. }
  assert (Hk : IntervalAction.keeps_gate (Env := nat) noop).
  { intros x. reflexivity. }
  assert (Hp : 0 < IntervalAction.interval (gate w)).
  { cbn. lia. }
  destruct (no_double_fire uint32_bits nat (steady 50) noop w 50 Hs Hk Hp) as [H _].
  destruct (H eq_refl) as (_ & Hn & _).
  split; [reflexivity | exact Hn].
Defined.

Lemma update_before_call_witness :
  let tf := steady 50 in
  let w := mkWorld 0%nat (IntervalAction.mk 10 0) [] in
  IntervalAction.get_prev (gate (IntervalAction.fired tf w)) = 50 /\
  calls (trace (IntervalAction.operator_call uint32_bits tf
                  (IntervalAction.operator_call uint32_bits tf noop) w)) = 1%nat.
Proof.
  intros tf w.
  destruct (update_before_call uint32_bits nat tf noop noop w eq_refl)
    as (_ & Hp & _ & _ & _ & _ & _ & H).
  split; [exact Hp|].
  apply H; [cbn; lia | reflexivity].
Defined.

Lemma set_interval_from_work_witness :
  let tf := replay [3000000; 3000000; 3500000; 4000000; 4000000] in
  let w := mkWorld 0%nat (IntervalAction.mk 3000000 0) [] in
  let w1 := IntervalAction.operator_call uint32_bits tf
              (on_gate (IntervalAction.set_interval 1000000)) w in
  IntervalAction.get_interval (gate w1) = 1000000 /\
  IntervalAction.get_prev (gate w1) = 3000000 /\
  IntervalAction.fires uint32_bits tf w1
  = (1000000 <=? IntervalAction.elapsed uint32_bits tf w1).
Proof.
  intros tf w w1.
  destruct (set_interval_from_work uint32_bits nat tf 1000000 w) as (_ & _ & H & _).
  destruct (H eq_refl) as (_ & Hi & Hp & Hn).
  split; [exact Hi|]. split; [exact Hp | exact Hn].
Defined.

Lemma sampling_per_call_witness :
  let tf := ticking 100 in
  let w := IntervalAction.construct tf 1 0%nat in
  samples (trace (IntervalAction.fired tf w)) = (samples (trace w) + 2)%nat /\
  IntervalAction.t_prev (gate (IntervalAction.fired tf w)) = 102 /\
  IntervalAction.t_prev (gate (IntervalAction.fired tf w)) <> 101.
Proof.
  intros tf w.
  destruct (sampling_per_call uint32_bits nat tf noop w) as [H _].
  destruct (H eq_refl) as (_ & _ & Hs & _ & Hp & Hd).
  split; [exact Hs|]. split; [exact Hp|].
  apply Hd. cbn. lia.
Defined.

Lemma set_interval_same_MEMFN (T : Type) (obj : T) (iv : Z) :
  same_work (same_as_MEMFN (Env := nat) obj)
    (on_gate (IntervalAction.set_interval iv))
    (on_gate (IntervalActionMEMFN.set_interval iv)).
Proof.
  intros a m (He & Ht & Hi & Hp & Hc). repeat split; assumption.
Defined.

Lemma set_interval_same_TPL (FUNC : Type) (fn : FUNC) (iv : Z) :
  same_work (same_as_TPL (Env := nat) fn)
    (on_gate (IntervalAction.set_interval iv))
    (on_gate (IntervalActionTPL.set_interval iv)).
Proof.
  intros a p (He & Ht & Hi & Hp & Hc). repeat split; assumption.
Defined.

(** The three variants on the ramp, each with a unit of work that shortens
    the interval to 300: the clock object of the bound-method variant is the
    schedule of readings, the callable of the third variant is the time
    source itself. *)
Lemma variants_agree_witness :
  let a := IntervalAction.polls uint32_bits (sampled ramp) 3
             (on_gate (IntervalAction.set_interval 300))
             (IntervalAction.construct (sampled ramp) 500 0%nat) in
  let m := IntervalActionMEMFN.polls uint32_bits sampled 3
             (on_gate (IntervalActionMEMFN.set_interval 300))
             (IntervalActionMEMFN.construct sampled ramp 500 0%nat) in
  let p := IntervalActionTPL.polls uint32_bits (fun f : nat -> Z * nat => f) 3
             (on_gate (IntervalActionTPL.set_interval 300))
             (IntervalActionTPL.construct (fun f : nat -> Z * nat => f)
                (sampled ramp) 500 0%nat) in
  same_as_MEMFN ramp a m /\ same_as_TPL (sampled ramp) a p /\
  IntervalAction.fires uint32_bits (sampled ramp) a
  = IntervalActionMEMFN.fires uint32_bits sampled m /\
  IntervalAction.fires uint32_bits (sampled ramp) a
  = IntervalActionTPL.fires uint32_bits (fun f : nat -> Z * nat => f) p.
Proof.
  apply (variants_agree uint32_bits nat (nat -> Z) (nat -> Z * nat)
           (sampled ramp) sampled (fun f => f) ramp (sampled ramp)).
  - intros e. reflexivity.
  - intros e. reflexivity.
  - apply set_interval_same_MEMFN.
  - apply set_interval_same_TPL.
Defined.

(** * Runs of [IntervalAction] *)

Lemma stores_app (l1 l2 : list event) :
  stores (l1 ++ l2) = (stores l1 + stores l2)%nat.
Proof. unfold stores. rewrite filter_app, length_app. reflexivity. Qed.

Section IntervalActionRuns.
Variable bits : N.
Variable Env : Type.
Variable timer_function : Env -> Z * Env.

Local Abbreviation state := (World Env IntervalAction.t).
Local Abbreviation operator_call := (IntervalAction.operator_call bits timer_function).
Local Abbreviation polls := (IntervalAction.polls bits timer_function).
Local Abbreviation fires := (IntervalAction.fires bits timer_function).
Local Abbreviation elapsed := (IntervalAction.elapsed bits timer_function).
Local Abbreviation fired := (IntervalAction.fired timer_function).
Local Abbreviation idle := (IntervalAction.idle timer_function).
Local Abbreviation next_reading := (IntervalAction.next_reading timer_function).
Local Abbreviation second_reading := (IntervalAction.second_reading timer_function).
Local Abbreviation interval := IntervalAction.interval.
Local Abbreviation t_prev := IntervalAction.t_prev.

(** What one call adds to the trace when the unit of work adds nothing. *)
Lemma operator_call_counts (func : state -> state) (w : state) :
  IntervalAction.keeps_trace func ->
  let b := Nat.b2n (fires w) in
  samples (trace (operator_call func w)) = (samples (trace w) + 1 + b)%nat /\
  stores (trace (operator_call func w)) = (stores (trace w) + b)%nat /\
  calls (trace (operator_call func w)) = (calls (trace w) + b)%nat.
Proof.
  intros Htr. cbn zeta. destruct (fires w) eqn:Hf.
  - rewrite (operator_call_fired bits Env timer_function func w Hf), Htr.
    unfold IntervalAction.fired; cbn [trace].
    rewrite samples_app, stores_app, calls_app. cbn. repeat split; lia.
  - rewrite (operator_call_idle bits Env timer_function func w Hf).
    unfold IntervalAction.idle; cbn [trace].
    rewrite samples_app, stores_app, calls_app. cbn. repeat split; lia.
Qed.


(** X5: whatever the run, [get_prev] returns a value that the time source
    returned to the gate (at construction or at a firing call), and
    [get_interval] the interval of construction, as long as the unit of work
    leaves the gate and the trace alone. *)
Theorem prev_is_a_reading (func : state -> state) (iv : Z) (e : Env) (n : nat) :
  IntervalAction.keeps_gate func -> IntervalAction.keeps_trace func ->
  let w := polls n func (IntervalAction.construct timer_function iv e) in
  In (Sample (IntervalAction.get_prev (gate w))) (trace w) /\
  IntervalAction.get_interval (gate w) = iv.
Proof.
  intros Hg Htr. cbn zeta. induction n as [|n IH].
  - cbn [IntervalAction.polls]. unfold IntervalAction.construct.
    destruct (timer_function e) as [now e1]. cbn. auto.
  - cbn [IntervalAction.polls].
    set (w := polls n func (IntervalAction.construct timer_function iv e)) in *.
    destruct IH as [Hin Hiv].
    destruct (fires w) eqn:Hf.
    + rewrite (operator_call_fired bits Env timer_function func w Hf).
      rewrite (Hg (fired w)), (Htr (fired w)).
      unfold IntervalAction.fired; cbn [gate trace].
      split; [|exact Hiv].
      apply in_or_app. right. cbn. auto.
    + rewrite (operator_call_idle bits Env timer_function func w Hf).
      unfold IntervalAction.idle; cbn [gate trace].
      split; [|exact Hiv].
      apply in_or_app. left. exact Hin.
Qed.

(** X6: the gate only sees the elapsed time modulo [2 ^ bits].  When the
    true count of the clock went from [T0] to [T1] and [T1 - T0] is [k] full
    periods plus [d] with [d] below the interval, the call does nothing,
    although for [k >= 1] more than the interval has passed. *)
Theorem late_poll_is_missed (func : state -> state) (w : state) (T0 T1 k d : Z) :
  t_prev (gate w) = T0 mod modulus bits ->
  next_reading (env w) = T1 mod modulus bits ->
  T1 - T0 = k * modulus bits + d ->
  0 <= d < modulus bits ->
  d < interval (gate w) ->
  elapsed w = d /\
  operator_call func w = idle w /\
  (1 <= k -> in_range bits (interval (gate w)) -> interval (gate w) < T1 - T0).
Proof.
  intros Hp Hn Hk Hd Hlt.
  assert (He : elapsed w = d).
  { unfold IntervalAction.elapsed, usub. rewrite Hp, Hn, <- Zminus_mod, Hk.
    rewrite Z.add_comm, Z.mod_add by (pose proof (modulus_pos bits); lia).
    apply Z.mod_small. exact Hd. }
  split; [exact He|]. split.
  - apply operator_call_idle. apply fires_false_iff. rewrite He. exact Hlt.
  - intros H1 [_ Hr]. rewrite Hk. pose proof (modulus_pos bits). nia.
Qed.

(** X7: when the time source steps back (the reading is below [t_prev]),
    the wrapped difference is [2 ^ bits] minus the step, so the call fires
    unless the interval is larger than that. *)
Theorem backward_clock_fires (func : state -> state) (w : state) :
  in_range bits (next_reading (env w)) ->
  in_range bits (t_prev (gate w)) ->
  next_reading (env w) < t_prev (gate w) ->
  elapsed w = modulus bits - (t_prev (gate w) - next_reading (env w)) /\
  (interval (gate w) <= modulus bits - (t_prev (gate w) - next_reading (env w)) ->
   operator_call func w = func (fired w)) /\
  (modulus bits - (t_prev (gate w) - next_reading (env w)) < interval (gate w) ->
   operator_call func w = idle w).
Proof.
  unfold in_range. intros Hn Hp Hlt.
  assert (He : elapsed w = modulus bits - (t_prev (gate w) - next_reading (env w))).
  { unfold IntervalAction.elapsed, usub.
    rewrite <- (Z.mod_add _ 1) by lia.
    rewrite Z.mod_small by lia. lia. }
  split; [exact He|]. split; intros Hi.
  - apply operator_call_fired. apply fires_true_iff. rewrite He. exact Hi.
  - apply operator_call_idle. apply fires_false_iff. rewrite He. exact Hi.
Qed.

End IntervalActionRuns.

(** * Runs on a time source that never steps back and never wraps *)

Section MonotoneRuns.
Variable bits : N.
Variable reading : nat -> Z.
Variable iv : Z.
Variable func : World nat IntervalAction.t -> World nat IntervalAction.t.

Hypothesis readings_in_range : forall n, in_range bits (reading n).
Hypothesis readings_monotone : forall n, reading n <= reading (S n).

Local Abbreviation tf := (sampled reading).
Local Abbreviation run k :=
  (IntervalAction.polls bits (sampled reading) k func
     (IntervalAction.construct (sampled reading) iv 0%nat)).

(** Along such a run the subtraction of the gate never wraps. *)
Lemma run_elapsed (k : nat) :
  IntervalAction.keeps_gate func -> IntervalAction.keeps_env func ->
  IntervalAction.t_prev (gate (run k)) <= reading (env (run k)) /\
  IntervalAction.elapsed bits tf (run k)
  = reading (env (run k)) - IntervalAction.t_prev (gate (run k)).
Proof.
  intros Hg He.
  destruct (gating_invariant bits reading iv func k Hg He) as (_ & m & Hm & Hp).
  cbn zeta in Hm, Hp.
  assert (Hle : IntervalAction.t_prev (gate (run k)) <= reading (env (run k))).
  { rewrite Hp. apply monotone_readings; [exact readings_monotone|lia]. }
  split; [exact Hle|].
  unfold IntervalAction.elapsed. cbn [IntervalAction.next_reading sampled fst].
  apply usub_no_wrap.
  - apply readings_in_range.
  - split; [|exact Hle]. rewrite Hp. apply readings_in_range.
Qed.

(** What a firing call of the run stores. *)
Lemma run_fired_prev (k : nat) :
  IntervalAction.keeps_gate func ->
  IntervalAction.fires bits tf (run k) = true ->
  IntervalAction.t_prev (gate (run (S k))) = reading (S (env (run k))).
Proof.
  intros Hg Hf. cbn [IntervalAction.polls].
  rewrite (operator_call_fired bits nat tf func _ Hf), Hg. reflexivity.
Qed.



(** X3: on a time source whose readings are unsigned values that never
    decrease (so never wrap), the unit of work first runs at the first call
    of the gate that reads [iv] or more past the reading of the constructor:
    while the readings stay below, the gate keeps the constructor's timestamp
    and nothing is called; the first call that reads [iv] or more past it
    calls the unit of work and stores its second reading. *)
Theorem first_fire (k : nat) :
  (forall j, (j < k)%nat -> reading (S j) - reading 0 < iv) ->
  gate (run k) = IntervalAction.mk iv (reading 0) /\
  env (run k) = S k /\
  calls (trace (run k)) = 0%nat /\
  (iv <= reading (S k) - reading 0 ->
   run (S k) = func (IntervalAction.fired tf (run k)) /\
   IntervalAction.t_prev (gate (IntervalAction.fired tf (run k))) = reading (S (S k))).
Proof.
  intros Hlow.
  assert (Hel : forall w : World nat IntervalAction.t,
            gate w = IntervalAction.mk iv (reading 0) ->
            IntervalAction.elapsed bits tf w = reading (env w) - reading 0).
  { intros w Hw. unfold IntervalAction.elapsed. rewrite Hw.
    cbn [IntervalAction.t_prev IntervalAction.next_reading sampled fst].
    apply usub_no_wrap; [apply readings_in_range|].
    split; [apply readings_in_range|].
    apply monotone_readings; [exact readings_monotone|lia]. }
  assert (Hq : gate (run k) = IntervalAction.mk iv (reading 0) /\
               env (run k) = S k /\ calls (trace (run k)) = 0%nat).
  { induction k as [|k IH].
    - cbn. auto.
    - destruct IH as (Hg & He & Hc). { intros j Hj. apply Hlow. lia. }
      assert (Hf : IntervalAction.fires bits tf (run k) = false).
      { apply fires_false_iff. rewrite (Hel _ Hg), Hg, He. cbn. apply Hlow. lia. }
      cbn [IntervalAction.polls].
      rewrite (operator_call_idle bits nat tf func _ Hf).
      rewrite idle_calls, idle_gate.
      split; [exact Hg|]. split; [|exact Hc].
      unfold IntervalAction.idle; cbn [env sampled snd]. rewrite He. reflexivity. }
  destruct Hq as (Hg & He & Hc).
  split; [exact Hg|]. split; [exact He|]. split; [exact Hc|].
  intros Hiv.
  assert (Hf : IntervalAction.fires bits tf (run k) = true).
  { apply fires_true_iff. rewrite (Hel _ Hg), Hg, He. cbn. exact Hiv. }
  split.
  - cbn [IntervalAction.polls]. apply operator_call_fired. exact Hf.
  - unfold IntervalAction.fired; cbn [gate IntervalAction.t_prev].
    unfold IntervalAction.second_reading, IntervalAction.next_reading.
    cbn [sampled fst snd]. rewrite He. reflexivity.
Qed.

End MonotoneRuns.

(** * [IntervalActionUstdClock] *)

Section UstdClockFacts.
Variable bits : N.
Variable Env : Type.
Variable micros : Env -> Z * Env.

Local Abbreviation ustate := (World Env IntervalActionUstdClock.t).

Lemma ustd_operator_call_fired (func : ustate -> ustate) (w : ustate) :
  IntervalActionUstdClock.fires bits micros w = true ->
  IntervalActionUstdClock.operator_call bits micros func w
  = func (mkWorld (snd (micros (snd (micros (env w)))))
            (IntervalActionUstdClock.mk (IntervalActionUstdClock.interval (gate w))
               (fst (micros (snd (micros (env w))))))
            (trace w ++ [Sample (fst (micros (env w)));
                         Sample (fst (micros (snd (micros (env w)))));
                         Store (fst (micros (snd (micros (env w))))); Call])).
Proof.
  unfold IntervalActionUstdClock.fires, IntervalActionUstdClock.operator_call.
  intros H. destruct (micros (env w)) as [now e1]; cbn [fst snd] in *.
  rewrite H. destruct (micros e1) as [now2 e2]; reflexivity.
Qed.

Lemma ustd_operator_call_idle (func : ustate -> ustate) (w : ustate) :
  IntervalActionUstdClock.fires bits micros w = false ->
  IntervalActionUstdClock.operator_call bits micros func w
  = mkWorld (snd (micros (env w))) (gate w)
      (trace w ++ [Sample (fst (micros (env w)))]).
Proof.
  unfold IntervalActionUstdClock.fires, IntervalActionUstdClock.operator_call.
  intros H. destruct (micros (env w)) as [now e1]; cbn [fst snd] in *.
  rewrite H. reflexivity.
Qed.

Lemma operator_call_same_UstdClock f g a u :
  same_work same_as_UstdClock f g ->
  same_as_UstdClock a u ->
  same_as_UstdClock (IntervalAction.operator_call bits micros f a)
                    (IntervalActionUstdClock.operator_call bits micros g u) /\
  IntervalAction.fires bits micros a = IntervalActionUstdClock.fires bits micros u.
Proof.
  intros Hw (He & Ht & Hi & Hp).
  destruct a as [ea [ia pa] ta], u as [eu [iu pu] tu].
  cbn in He, Ht, Hi, Hp. subst eu tu iu pu.
  unfold IntervalAction.operator_call, IntervalActionUstdClock.operator_call,
    IntervalAction.fires, IntervalActionUstdClock.fires, IntervalAction.elapsed,
    IntervalAction.next_reading.
  cbn [env gate trace IntervalAction.interval IntervalAction.t_prev
       IntervalActionUstdClock.interval IntervalActionUstdClock.t_prev].
  destruct (micros ea) as [now e1]. cbn [fst].
  split; [|reflexivity].
  destruct (ia <=? usub bits now pa).
  - destruct (micros e1) as [now2 e2]. apply Hw. repeat split.
  - repeat split.
Qed.

(** X8: [IntervalActionUstdClock] is [IntervalAction] instantiated at the
    clock it is wired to: constructed with the same interval and called with
    units of work that do the same, the two stay in step over any number of
    calls and take the same decision at the next one. *)
Theorem UstdClock_is_IntervalAction f g (iv : Z) (e : Env) (n : nat) :
  same_work same_as_UstdClock f g ->
  let a := IntervalAction.polls bits micros n f (IntervalAction.construct micros iv e) in
  let u := IntervalActionUstdClock.polls bits micros n g
             (IntervalActionUstdClock.construct micros iv e) in
  same_as_UstdClock a u /\
  IntervalAction.fires bits micros a = IntervalActionUstdClock.fires bits micros u.
Proof.
  intros Hw. cbn zeta.
  assert (Hrel : same_as_UstdClock
            (IntervalAction.polls bits micros n f (IntervalAction.construct micros iv e))
            (IntervalActionUstdClock.polls bits micros n g
               (IntervalActionUstdClock.construct micros iv e))).
  { induction n as [|k IH].
    - cbn [IntervalAction.polls IntervalActionUstdClock.polls].
      unfold IntervalAction.construct, IntervalActionUstdClock.construct.
      destruct (micros e) as [now e1]. repeat split.
    - cbn [IntervalAction.polls IntervalActionUstdClock.polls].
      apply (operator_call_same_UstdClock f g _ _ Hw IH). }
  split; [exact Hrel|].
  apply (operator_call_same_UstdClock f g _ _ Hw Hrel).
Qed.

End UstdClockFacts.

(** * [IA_PRINT_ITER_PER_SEC] *)

Section IterPerSecFacts.
Variable H : Type.
Variable micros : H -> Z * H.

Local Abbreviation istate := (IterPerSec.state H).
Local Abbreviation pass := (IterPerSec.IA_PRINT_ITER_PER_SEC micros).
Local Abbreviation passes := (IterPerSec.passes micros).
Local Abbreviation due := (IterPerSec.due micros).
Local Abbreviation cnt := IterPerSec._cnt_iter_per_sec.

Lemma iter_clock_fst (e : IterPerSec.statics H) :
  fst (IterPerSec.clock micros e) = fst (micros (IterPerSec.hw e)).
Proof. unfold IterPerSec.clock. destruct (micros (IterPerSec.hw e)); reflexivity. Qed.

Lemma iter_clock_snd (e : IterPerSec.statics H) :
  snd (IterPerSec.clock micros e)
  = IterPerSec.mkStatics (snd (micros (IterPerSec.hw e))) (cnt e)
      (IterPerSec.serial e) (IterPerSec.undefined e).
Proof. unfold IterPerSec.clock. destruct (micros (IterPerSec.hw e)); reflexivity. Qed.

(** Counting a pass does not change whether the gate opens. *)
Lemma due_count_pass (w : istate) : due (IterPerSec.count_pass w) = due w.
Proof.
  unfold IterPerSec.due, IntervalActionUstdClock.fires, IterPerSec.count_pass.
  cbn [env gate]. rewrite !iter_clock_fst. reflexivity.
Qed.

(** A pass at which the gate stays shut only counts. *)
Lemma pass_quiet (w : istate) :
  due w = false ->
  gate (pass w) = gate w /\
  cnt (env (pass w)) = (cnt (env w) + 1) mod modulus 16 /\
  IterPerSec.serial (env (pass w)) = IterPerSec.serial (env w) /\
  IterPerSec.undefined (env (pass w)) = IterPerSec.undefined (env w).
Proof.
  intros Hd. unfold IterPerSec.IA_PRINT_ITER_PER_SEC.
  rewrite ustd_operator_call_idle
    by (rewrite <- due_count_pass in Hd; exact Hd).
  cbn [gate env]. rewrite iter_clock_snd. cbn. repeat split.
Qed.

Lemma passes_quiet (w : istate) (n : nat) :
  (forall j, (j < n)%nat -> due (passes j w) = false) ->
  gate (passes n w) = gate w /\
  cnt (env (passes n w)) mod modulus 16 = (cnt (env w) + Z.of_nat n) mod modulus 16 /\
  IterPerSec.serial (env (passes n w)) = IterPerSec.serial (env w) /\
  IterPerSec.undefined (env (passes n w)) = IterPerSec.undefined (env w).
Proof.
  induction n as [|n IH]; intros Hq.
  - cbn [IterPerSec.passes]. rewrite Z.add_0_r. repeat split.
  - destruct IH as (Hg & Hc & Hs & Hu). { intros j Hj. apply Hq. lia. }
    cbn [IterPerSec.passes].
    destruct (pass_quiet (passes n w)) as (Hg' & Hc' & Hs' & Hu').
    { apply Hq. lia. }
    rewrite Hg', Hc', Hs', Hu'.
    split; [exact Hg|]. split; [|split; assumption].
    rewrite Z.mod_mod by (pose proof (modulus_pos 16); lia).
    rewrite <- Z.add_mod_idemp_l, Hc by (pose proof (modulus_pos 16); lia).
    rewrite Z.add_mod_idemp_l by (pose proof (modulus_pos 16); lia).
    f_equal. lia.
Qed.

(** X9: when the gate opens at a pass, the report prints the number of
    passes since the counter was last cleared, modulo [2 ^ 16], and the
    interval divided by it, and clears the counter.  When that number is a
    multiple of [2 ^ 16] the counter has wrapped to 0 and the report divides
    by zero. *)
Theorem iter_per_sec_report (w : istate) (n : nat) :
  (forall j, (j < n)%nat -> due (passes j w) = false) ->
  due (passes n w) = true ->
  let c := (cnt (env w) + Z.of_nat (S n)) mod modulus 16 in
  let w' := passes (S n) w in
  (c <> 0 ->
     IterPerSec.serial (env w')
     = IterPerSec.serial (env w)
       ++ [Print_str "iter/sec: "; Print_num c; Print_str " (";
           Print_num (IntervalActionUstdClock.get_interval (gate w) / c);
           Println_str " us average loop time)"] /\
     cnt (env w') = 0 /\
     IterPerSec.undefined (env w') = IterPerSec.undefined (env w)) /\
  (c = 0 ->
     IterPerSec.undefined (env w') = true /\
     IterPerSec.serial (env w')
     = IterPerSec.serial (env w)
       ++ [Print_str "iter/sec: "; Print_num 0; Print_str " ("]).
Proof.
  intros Hq Hd c w'.
  destruct (passes_quiet w n Hq) as (Hg & Hc & Hs & Hu).
  assert (Hcnt : (cnt (env (passes n w)) + 1) mod modulus 16 = c).
  { subst c. rewrite <- Z.add_mod_idemp_l, Hc by (pose proof (modulus_pos 16); lia).
    rewrite Z.add_mod_idemp_l by (pose proof (modulus_pos 16); lia).
    f_equal. lia. }
  subst w'. cbn [IterPerSec.passes].
  unfold IterPerSec.IA_PRINT_ITER_PER_SEC.
  rewrite ustd_operator_call_fired
    by (rewrite <- due_count_pass in Hd; exact Hd).
  unfold IterPerSec.report.
  cbn [env gate trace IterPerSec.count_pass IntervalActionUstdClock.get_interval
       IntervalActionUstdClock.interval].
  rewrite !iter_clock_snd.
  cbn [IterPerSec.hw IterPerSec._cnt_iter_per_sec IterPerSec.serial
       IterPerSec.undefined].
  rewrite Hcnt, Hg, Hs, Hu. unfold udiv.
  split; intros Hz.
  - apply Z.eqb_neq in Hz. rewrite Hz. cbn [env IterPerSec.serial
      IterPerSec._cnt_iter_per_sec IterPerSec.undefined].
    rewrite <- app_assoc. repeat split.
  - rewrite Hz. cbn. repeat split.
Qed.

End IterPerSecFacts.

(** * [IA_PRINT_LOAD] *)

Section PrintLoadFacts.
Variable H : Type.
Variable micros : H -> Z * H.

Local Abbreviation lstate := (PrintLoad.state H).
Local Abbreviation pass := (PrintLoad.IA_PRINT_LOAD micros).
Local Abbreviation passes := (PrintLoad.passes micros).
Local Abbreviation due := (PrintLoad.due micros).
Local Abbreviation quiet := (PrintLoad.quiet micros).
Local Abbreviation duty := PrintLoad._duty_done.

Lemma load_clock_fst (e : PrintLoad.statics H) :
  fst (PrintLoad.clock micros e) = fst (micros (PrintLoad.hw e)).
Proof. unfold PrintLoad.clock. destruct (micros (PrintLoad.hw e)); reflexivity. Qed.

Lemma load_clock_snd (e : PrintLoad.statics H) :
  snd (PrintLoad.clock micros e)
  = PrintLoad.mkStatics (snd (micros (PrintLoad.hw e))) (duty e) (PrintLoad.serial e).
Proof. unfold PrintLoad.clock. destruct (micros (PrintLoad.hw e)); reflexivity. Qed.

(** Adding a span does not change whether the gate opens. *)
Lemma due_add_span (ts te : Z) (w : lstate) :
  due (mkWorld (PrintLoad.add_span ts te (env w)) (gate w) (trace w)) = due w.
Proof.
  unfold PrintLoad.due, IntervalActionUstdClock.fires, PrintLoad.add_span.
  cbn [env gate]. rewrite !load_clock_fst. reflexivity.
Qed.

(** A pass at which the gate stays shut only adds its span. *)
Lemma load_pass_quiet (ts te : Z) (w : lstate) :
  due w = false ->
  gate (pass ts te w) = gate w /\
  duty (env (pass ts te w))
  = (duty (env w) + usub uint32_bits te ts) mod modulus uint32_bits /\
  PrintLoad.serial (env (pass ts te w)) = PrintLoad.serial (env w).
Proof.
  intros Hd. unfold PrintLoad.IA_PRINT_LOAD.
  rewrite ustd_operator_call_idle
    by (rewrite <- (due_add_span ts te) in Hd; exact Hd).
  cbn [gate env]. rewrite load_clock_snd. cbn. repeat split.
Qed.

(** X10: over passes at which the gate stays shut, [_duty_done] is the sum
    of the spans [time_end - time_start], each taken modulo [2 ^ 32], added
    up modulo [2 ^ 32], and nothing is printed.  At the pass where the gate
    opens, the load printed is computed from that sum with the span of the
    pass included, and [_duty_done] is cleared. *)
Theorem load_report (spans : list (Z * Z)) (ts te : Z) (w : lstate) :
  in_range uint32_bits (duty (env w)) ->
  quiet spans w = true ->
  duty (env (passes spans w))
  = (duty (env w) + PrintLoad.total spans) mod modulus uint32_bits /\
  PrintLoad.serial (env (passes spans w)) = PrintLoad.serial (env w) /\
  gate (passes spans w) = gate w /\
  (due (passes spans w) = true ->
     PrintLoad.serial (env (pass ts te (passes spans w)))
     = PrintLoad.serial (env w)
       ++ [Print_str "Load: ";
           Print_load ((duty (env w) + PrintLoad.total spans
                        + usub uint32_bits te ts) mod modulus uint32_bits);
           Println_str "%"] /\
     duty (env (pass ts te (passes spans w))) = 0).
Proof.
  intros Hr Hq.
  pose proof (modulus_pos uint32_bits) as Hm.
  assert (Hrun : duty (env (passes spans w))
                 = (duty (env w) + PrintLoad.total spans) mod modulus uint32_bits /\
                 PrintLoad.serial (env (passes spans w)) = PrintLoad.serial (env w) /\
                 gate (passes spans w) = gate w).
  { revert w Hr Hq. induction spans as [|[s e] rest IH]; intros w Hr Hq.
    - cbn [PrintLoad.passes PrintLoad.total]. rewrite Z.add_0_r.
      rewrite Z.mod_small by exact Hr. repeat split.
    - cbn [PrintLoad.quiet] in Hq. apply andb_prop in Hq. destruct Hq as [Hd Hq].
      apply negb_true_iff in Hd.
      destruct (load_pass_quiet s e w Hd) as (Hg1 & Hd1 & Hs1).
      cbn [PrintLoad.passes PrintLoad.total].
      destruct (IH (pass s e w)) as (Hd2 & Hs2 & Hg2).
      { rewrite Hd1. unfold in_range. apply Z.mod_pos_bound. exact Hm. }
      { exact Hq. }
      rewrite Hd2, Hs2, Hg2, Hd1, Hs1, Hg1.
      split; [|split; reflexivity].
      rewrite Z.add_mod_idemp_l by lia. f_equal. lia. }
  destruct Hrun as (Hd & Hs & Hg).
  split; [exact Hd|]. split; [exact Hs|]. split; [exact Hg|].
  intros Hdue. unfold PrintLoad.IA_PRINT_LOAD.
  rewrite ustd_operator_call_fired
    by (rewrite <- (due_add_span ts te) in Hdue; exact Hdue).
  unfold PrintLoad.report. cbn [env gate trace].
  rewrite !load_clock_snd.
  cbn [PrintLoad.hw PrintLoad._duty_done PrintLoad.serial PrintLoad.add_span].
  rewrite Hd, Hs. split; [|reflexivity].
  rewrite Z.add_mod_idemp_l by lia. reflexivity.
Qed.

End PrintLoadFacts.

(** * Runs with the counting stub *)

Lemma beside_counter_fst (H : Type) (tf : H -> Z * H) (e : H * nat) :
  fst (beside_counter tf e) = fst (tf (fst e)).
Proof. unfold beside_counter. destruct (tf (fst e)); reflexivity. Qed.

Lemma beside_counter_snd (H : Type) (tf : H -> Z * H) (e : H * nat) :
  snd (beside_counter tf e) = (snd (tf (fst e)), snd e).
Proof. unfold beside_counter. destruct (tf (fst e)); reflexivity. Qed.

Lemma counting_work_keeps_trace (H : Type) :
  IntervalAction.keeps_trace (Env := H * nat) counting_work.
Proof. intros w. reflexivity. Qed.

(** One call of the gate with the counting stub: the counter goes up by one
    exactly when the condition holds. *)
Lemma counting_step (bits : N) (H : Type) (micros : H -> Z * H)
    (w : World (H * nat) IntervalAction.t) :
  snd (env (IntervalAction.operator_call bits (beside_counter micros) counting_work w))
  = (snd (env w)
     + Nat.b2n (IntervalAction.fires bits (beside_counter micros) w))%nat.
Proof.
  destruct (IntervalAction.fires bits (beside_counter micros) w) eqn:Hf.
  - rewrite (operator_call_fired _ _ _ counting_work w Hf).
    unfold counting_work, IntervalAction.fired. cbn [env snd].
    rewrite !beside_counter_snd. cbn. lia.
  - rewrite (operator_call_idle _ _ _ counting_work w Hf).
    unfold IntervalAction.idle. cbn [env].
    rewrite beside_counter_snd. cbn. lia.
Qed.


Section CountedMonotoneRuns.
Variable bits : N.
Variable reading : nat -> Z.
Variable iv : Z.

Hypothesis readings_in_range : forall n, in_range bits (reading n).
Hypothesis readings_monotone : forall n, reading n <= reading (S n).

Local Abbreviation crun k :=
  (IntervalAction.polls bits (beside_counter (sampled reading)) k counting_work
     (IntervalAction.construct (beside_counter (sampled reading)) iv (0%nat, 0%nat))).

(** X2: on a time source whose readings never decrease and never wrap, the
    unit of work is invoked no more often than the interval allows: with the
    counting stub as unit of work, after any number of calls of the gate the
    number of invocations times the interval is at most the time from the
    reading of the constructor to the last stored timestamp, which is itself
    not after the next reading of the clock. *)
Theorem rate_bound (k : nat) :
  let w := IntervalAction.polls bits (beside_counter (sampled reading)) k
             counting_work
             (IntervalAction.construct (beside_counter (sampled reading)) iv
                (0%nat, 0%nat)) in
  Z.of_nat (snd (env w)) * iv <= IntervalAction.t_prev (gate w) - reading 0 /\
  IntervalAction.t_prev (gate w) <= reading (fst (env w)).
Proof.
  cbn zeta.
  assert (Hinv : IntervalAction.interval (gate (crun k)) = iv /\
                 (exists m, (m < fst (env (crun k)))%nat /\
                            IntervalAction.t_prev (gate (crun k)) = reading m) /\
                 Z.of_nat (snd (env (crun k))) * iv
                 <= IntervalAction.t_prev (gate (crun k)) - reading 0).
  { induction k as [|k IH].
    - cbn. split; [reflexivity|]. split; [|lia].
      exists 0%nat. split; [lia|reflexivity].
    - cbn [IntervalAction.polls].
      destruct IH as (Hiv & (m & Hm & Hp) & Hc).
      revert Hiv Hm Hp Hc.
      destruct (crun k) as [[n c] [i p] tr].
      cbn [env gate fst snd IntervalAction.interval IntervalAction.t_prev].
      intros Hiv Hm Hp Hc. subst i p.
      assert (Hmn : reading m <= reading n).
      { apply monotone_readings; [exact readings_monotone|lia]. }
      pose proof (readings_monotone n) as Hn.
      unfold IntervalAction.operator_call.
      cbn [env gate trace beside_counter sampled fst snd
           IntervalAction.interval IntervalAction.t_prev].
      destruct (readings_in_range m) as [Hm0 _].
      rewrite (usub_no_wrap bits (reading n) (reading m) (readings_in_range n)
                 (conj Hm0 Hmn)).
      destruct (iv <=? reading n - reading m) eqn:Hf.
      + apply Z.leb_le in Hf.
        cbn [counting_work env gate fst snd
             IntervalAction.interval IntervalAction.t_prev].
        split; [reflexivity|]. split.
        * exists (S n). split; [lia|reflexivity].
        * rewrite Nat2Z.inj_succ. lia.
      + cbn [env gate fst snd IntervalAction.interval IntervalAction.t_prev].
        split; [reflexivity|]. split; [|exact Hc].
        exists m. split; [lia|reflexivity]. }
  destruct Hinv as (_ & (m & Hm & Hp) & Hc).
  split; [exact Hc|].
  rewrite Hp. apply monotone_readings; [exact readings_monotone|lia].
Qed.

End CountedMonotoneRuns.

(** * Instances of the run and macro properties *)

Lemma noop_keeps_gate (Env : Type) : IntervalAction.keeps_gate (Env := Env) noop.
Proof. intros w. reflexivity. Defined.

Lemma noop_keeps_env (Env : Type) : IntervalAction.keeps_env (Env := Env) noop.
Proof. intros w. reflexivity. Defined.

Lemma noop_keeps_trace (Env : Type) : IntervalAction.keeps_trace (Env := Env) noop.
Proof. intros w. reflexivity. Defined.


Lemma rate_bound_witness :
  let w := IntervalAction.polls uint32_bits (beside_counter (sampled ramp)) 3
             counting_work
             (IntervalAction.construct (beside_counter (sampled ramp)) 500
                (0%nat, 0%nat)) in
  Z.of_nat (snd (env w)) * 500 <= IntervalAction.t_prev (gate w) - ramp 0 /\
  IntervalAction.t_prev (gate w) <= ramp (fst (env w)).
Proof.
  exact (rate_bound uint32_bits ramp 500 ramp_in_range ramp_monotone 3).
Defined.

Lemma first_fire_witness :
  let w := IntervalAction.polls uint32_bits (sampled ramp) 1 noop
             (IntervalAction.construct (sampled ramp) 500 0%nat) in
  gate w = IntervalAction.mk 500 (ramp 0) /\
  calls (trace w) = 0%nat /\
  IntervalAction.operator_call uint32_bits (sampled ramp) noop w
  = noop (IntervalAction.fired (sampled ramp) w).
Proof.
  assert (Hlow : forall j, (j < 1)%nat -> ramp (S j) - ramp 0 < 500).
  { intros j Hj. assert (j = 0%nat) as -> by lia. reflexivity. }
  destruct (first_fire uint32_bits ramp 500 noop ramp_in_range ramp_monotone 1 Hlow)
    as (Hg & _ & Hc & Hf).
  split; [exact Hg|]. split; [exact Hc|].
  apply Hf. vm_compute. discriminate.
Defined.


Lemma prev_is_a_reading_witness :
  let tf := replay [1000; 1200; 1600; 1650; 1700] in
  let w := IntervalAction.polls uint32_bits tf 3 noop
             (IntervalAction.construct tf 500 0%nat) in
  In (Sample (IntervalAction.get_prev (gate w))) (trace w) /\
  IntervalAction.get_interval (gate w) = 500.
Proof.
  intros tf.
  exact (prev_is_a_reading uint32_bits nat tf noop 500 0%nat 3
           (noop_keeps_gate nat) (noop_keeps_trace nat)).
Defined.

(** A call one full period and five ticks after the last firing, with
    interval 10. *)
Lemma late_poll_is_missed_witness :
  let w := mkWorld 0%nat (IntervalAction.mk 10 0) [] in
  IntervalAction.elapsed uint32_bits (steady 5) w = 5 /\
  IntervalAction.operator_call uint32_bits (steady 5) noop w
  = IntervalAction.idle (steady 5) w /\
  10 < 4294967301 - 0.
Proof.
  intros w.
  assert (Hd : 0 <= 5 < modulus uint32_bits).
  { change (modulus uint32_bits) with 4294967296. lia. }
  assert (Hk : 4294967301 - 0 = 1 * modulus uint32_bits + 5).
  { change (modulus uint32_bits) with 4294967296. lia. }
  assert (Hlt : 5 < IntervalAction.interval (gate w)).
  { cbn. lia. }
  destruct (late_poll_is_missed uint32_bits nat (steady 5) noop w 0 4294967301 1 5
              eq_refl eq_refl Hk Hd Hlt) as (He & Hi & Hl).
  split; [exact He|]. split; [exact Hi|].
  apply Hl; [lia|].
  unfold in_range. change (modulus uint32_bits) with 4294967296. cbn. lia.
Defined.

(** The clock steps back by 10 from the stored timestamp. *)
Lemma backward_clock_fires_witness :
  let w := mkWorld 0%nat (IntervalAction.mk 10 1000) [] in
  IntervalAction.elapsed uint32_bits (steady 990) w = 4294967296 - (1000 - 990) /\
  IntervalAction.operator_call uint32_bits (steady 990) noop w
  = noop (IntervalAction.fired (steady 990) w).
Proof.
  intros w.
  assert (Hn : in_range uint32_bits (IntervalAction.next_reading (steady 990) (env w))).
  { unfold in_range. change (modulus uint32_bits) with 4294967296. cbn. lia. }
  assert (Hp : in_range uint32_bits (IntervalAction.t_prev (gate w))).
  { unfold in_range. change (modulus uint32_bits) with 4294967296. cbn. lia. }
  assert (Hlt : IntervalAction.next_reading (steady 990) (env w)
                < IntervalAction.t_prev (gate w)).
  { cbn. lia. }
  destruct (backward_clock_fires uint32_bits nat (steady 990) noop w Hn Hp Hlt)
    as (He & Hf & _).
  split; [exact He|].
  apply Hf. change (modulus uint32_bits) with 4294967296. cbn. lia.
Defined.

Lemma set_interval_same_UstdClock (iv : Z) :
  same_work (same_as_UstdClock (Env := nat))
    (on_gate (IntervalAction.set_interval iv))
    (on_gate (IntervalActionUstdClock.set_interval iv)).
Proof.
  intros a u (He & Ht & Hi & Hp). repeat split; assumption.
Defined.

Lemma UstdClock_is_IntervalAction_witness :
  let a := IntervalAction.polls uint32_bits (sampled ramp) 3
             (on_gate (IntervalAction.set_interval 300))
             (IntervalAction.construct (sampled ramp) 500 0%nat) in
  let u := IntervalActionUstdClock.polls uint32_bits (sampled ramp) 3
             (on_gate (IntervalActionUstdClock.set_interval 300))
             (IntervalActionUstdClock.construct (sampled ramp) 500 0%nat) in
  same_as_UstdClock a u /\
  IntervalAction.fires uint32_bits (sampled ramp) a
  = IntervalActionUstdClock.fires uint32_bits (sampled ramp) u.
Proof.
  exact (UstdClock_is_IntervalAction uint32_bits nat (sampled ramp) _ _ 500 0%nat 3
           (set_interval_same_UstdClock 300)).
Defined.

(** Three passes, the third one a second after the construction of the
    gate. *)
Lemma iter_per_sec_report_witness :
  let micros := replay [0; 400000; 800000; 1200000; 1200000] in
  let w := IntervalActionUstdClock.construct (IterPerSec.clock micros) 1000000
             (IterPerSec.mkStatics 0%nat 0 [] false) in
  IterPerSec.serial (env (IterPerSec.passes micros 3 w))
  = [Print_str "iter/sec: "; Print_num 3; Print_str " ("; Print_num 333333;
     Println_str " us average loop time)"] /\
  IterPerSec._cnt_iter_per_sec (env (IterPerSec.passes micros 3 w)) = 0.
Proof.
  intros micros w.
  assert (Hq : forall j, (j < 2)%nat -> IterPerSec.due micros (IterPerSec.passes micros j w) = false).
  { intros j Hj. destruct j as [|[|j]]; [reflexivity | reflexivity | lia]. }
  destruct (iter_per_sec_report nat micros w 2 Hq eq_refl) as [Hok _].
  destruct Hok as (Hs & Hc & _).
  { vm_compute. discriminate. }
  split; [exact Hs | exact Hc].
Defined.

(** The counter at 65535 when the gate opens: the pass wraps it to 0 and the
    report divides by it. *)
Example iter_per_sec_wrapped_counter :
  let w := mkWorld (IterPerSec.mkStatics 0%nat 65535 [] false)
             (IntervalActionUstdClock.mk 1000000 0) [] in
  IterPerSec.undefined
    (env (IterPerSec.IA_PRINT_ITER_PER_SEC (steady 1000000) w)) = true.
Proof. vm_compute. reflexivity. Qed.

(** The first pass of each macro, with the clock standing at 7: the gate is
    constructed and does not open. *)
Example first_passes :
  let i := IterPerSec.IA_PRINT_ITER_PER_SEC_first (steady 7) 0%nat [] in
  let l := PrintLoad.IA_PRINT_LOAD_first (steady 7) 100 350 0%nat [] in
  gate i = IntervalActionUstdClock.mk 1000000 7 /\
  IterPerSec._cnt_iter_per_sec (env i) = 1 /\ IterPerSec.serial (env i) = [] /\
  gate l = IntervalActionUstdClock.mk 1000000 7 /\
  PrintLoad._duty_done (env l) = 250 /\ PrintLoad.serial (env l) = [].
Proof. vm_compute. repeat split. Qed.

(** Two measured spans, the second across the wrap of the clock, then the
    pass at which the gate opens. *)
Lemma load_report_witness :
  let micros := replay [0; 400000; 800000; 1200000; 1200000] in
  let w := IntervalActionUstdClock.construct (PrintLoad.clock micros) 1000000
             (PrintLoad.mkStatics 0%nat 0 []) in
  let spans := [(100, 350); (4294967290, 4)] in
  PrintLoad._duty_done (env (PrintLoad.passes micros spans w)) = 260 /\
  PrintLoad.serial (env (PrintLoad.IA_PRINT_LOAD micros 1000 1500
                           (PrintLoad.passes micros spans w)))
  = [Print_str "Load: "; Print_load 760; Println_str "%"] /\
  PrintLoad._duty_done (env (PrintLoad.IA_PRINT_LOAD micros 1000 1500
                               (PrintLoad.passes micros spans w))) = 0.
Proof.
  intros micros w spans.
  assert (Hr : in_range uint32_bits (PrintLoad._duty_done (env w))).
  { unfold in_range. change (modulus uint32_bits) with 4294967296. cbn. lia. }
  destruct (load_report nat micros spans 1000 1500 w Hr eq_refl) as (Hd & _ & _ & Hf).
  destruct (Hf eq_refl) as (Hs & Hz).
  split; [exact Hd|]. split; [exact Hs | exact Hz].
Defined.
